(** * Flashlight: a virtualised grid of justified rows

    A shallow embedding of the grid controller ([Flashlight], index.ts), of
    its sections ([SectionElement], section.ts) and of the row tiling pass
    it calls, with the properties of the design document stated on them.
    The controller is embedded as it runs with the section class at hand:
    where it calls a member the class does not have, or leaves out an
    argument the class reads, the [TypeError] is part of the embedding.

    JavaScript numbers are IEEE 754 binary64 values: they are modelled by
    Rocq's primitive floats, whose operations are the same ones.  Counters
    and array positions (section indices, ordinals, lengths) are integers. *)

From Stdlib Require Import ZArith List Bool Lia String PrimFloat.
From stdpp Require Import base option list gmap strings.

Local Open Scope Z_scope.

(** ** JavaScript values *)

(** A numeric field that may not have been written yet ([undefined]) or
    that the empty controller state initialises to [null]. *)
Inductive jsnum : Type :=
| undefined
| null
| num (x : float).

(** [ToNumber], as arithmetic and relational operators apply it. *)
Definition ToNumber (v : jsnum) : float :=
  match v with
  | undefined => nan
  | null => 0%float
  | num x => x
  end.

(** [a === b]: no coercion; [NaN] differs from itself, [0] equals [-0]. *)
Definition strict_eq (a b : jsnum) : bool :=
  match a, b with
  | undefined, undefined => true
  | null, null => true
  | num x, num y => PrimFloat.eqb x y
  | _, _ => false
  end.

(** [a !== b]. *)
Definition strict_neq (a b : jsnum) : bool := negb (strict_eq a b).

(** Truthiness of a number: [0], [-0] and [NaN] are falsy. *)
Definition truthy_num (x : float) : bool :=
  negb (PrimFloat.eqb x 0 || PrimFloat.is_nan x).

(** An array length read as a number. *)
Definition of_nat (n : nat) : float :=
  Nat.iter n (fun x => (x + 1)%float) 0%float.

(** [Boolean(v)] of an optional number ([extraMargins?: number]). *)
Definition truthy_opt (v : option float) : bool :=
  match v with
  | None => false
  | Some x => truthy_num x
  end.

(** ** Data (state.ts) *)

Record ItemData : Type := mkItem {
  id : string;
  aspectRatio : float
}.

Record RowData : Type := mkRow {
  items : list ItemData;
  row_aspectRatio : float;
  extraMargins : option float
}.

(** A pagination cursor of type [K]: the pager hands out page numbers; a
    response may carry [null], or no [nextRequestKey] at all. *)
Inductive cursor : Type :=
| KNull
| KUndefined
| Key (k : Z).

(** [Boolean(key)]: [null], [undefined] and the number [0] are falsy. *)
Definition truthy (c : cursor) : bool :=
  match c with
  | KNull | KUndefined => false
  | Key k => negb (k =? 0)
  end.

(** [key === null]. *)
Definition is_null (c : cursor) : bool :=
  match c with
  | KNull => true
  | _ => false
  end.

Record Response : Type := mkResponse {
  resp_items : list ItemData;
  nextRequestKey : cursor
}.

Record Options : Type := mkOptions {
  margin : float;
  rowAspectRatioThreshold : float
}.

(** ** SectionElement (section.ts) *)

Module SectionElement.

(** The four style properties [set] writes on an item's element. *)
Record placement : Type := mkPlacement {
  style_height : float;
  style_width : float;
  style_left : float;
  style_top : float
}.

(** One entry of a row: the item's element (its style, [None] until the
    first layout) and the item. *)
Definition cell : Type := (option placement * ItemData)%type.

Record row_meta : Type := mkMeta {
  meta_aspectRatio : float;
  meta_extraMargins : option float
}.

Record t : Type := mk {
  attached : bool;
  top : jsnum;
  width : jsnum;
  height : jsnum;
  index : Z;
  (** [section.style.top] and [section.style.height], in pixels. *)
  section_top : option float;
  section_height : option float;
  rows : list (row_meta * list cell)
}.

(** The constructor: one element per item, nothing laid out. *)
Definition new (index : Z) (rs : list RowData) : t :=
  {| attached := false;
     top := undefined; width := undefined; height := undefined;
     index := index;
     section_top := None; section_height := None;
     rows := map (fun r =>
                    ({| meta_aspectRatio := row_aspectRatio r;
                        meta_extraMargins := extraMargins r |},
                     map (fun d => (None, d)) (items r))) rs |}.

Definition getItems (s : t) : list ItemData :=
  flat_map (fun r => map snd (snd r)) (rows s).

Definition getHeight (s : t) : jsnum := height s.
Definition getTop (s : t) : jsnum := top s.
Definition getBottom (s : t) : float :=
  (ToNumber (top s) + ToNumber (height s))%float.
Definition isShown (s : t) : bool := attached s.

(** [hide] and [show] flip the mount flag; detaching and attaching the
    element and the calls of the render delegate are effects on the
    document, which the section's own fields do not record. *)
Definition hide (s : t) : t :=
  if attached s then
    {| attached := false; top := top s; width := width s; height := height s;
       index := index s; section_top := section_top s;
       section_height := section_height s; rows := rows s |}
  else s.

Definition show (s : t) : t :=
  if negb (attached s) then
    {| attached := true; top := top s; width := width s; height := height s;
       index := index s; section_top := section_top s;
       section_height := section_height s; rows := rows s |}
  else s.

(** [show()] as it may be called: with the element to attach the section
    to, or with none.  A section that is mounted returns at once;
    otherwise [element.appendChild] is the first thing read, a [TypeError]
    when there is no element, before anything is written. *)
Definition show_at (element : option unit) (s : t) : option t :=
  if negb (attached s) then
    match element with
    | Some _ => Some (show s)
    | None => None
    end
  else Some s.

(** [section.target]: the class has no member of that name, so that
    reading it gives [undefined]. *)
Definition target (s : t) : option unit := None.

Section Layout.

(** [MARGIN] of constants.ts, which is not part of the sources at hand. *)
Variable MARGIN : float.

(** [extraMargins ? extraMargins : 0]. *)
Definition margins_of (m : row_meta) : float :=
  if truthy_opt (meta_extraMargins m)
  then match meta_extraMargins m with Some x => x | None => 0%float end
  else 0%float.

(** The height [set] gives a row of [n] items at width [w]. *)
Definition row_height (w : float) (m : row_meta) (n : nat) : float :=
  ((w - (of_nat n - 1 + margins_of m) * MARGIN) / meta_aspectRatio m)%float.

(** The inner [items.forEach]: places the cells from [left] on. *)
Fixpoint place_items (h localTop left : float) (cs : list cell) : list cell :=
  match cs with
  | [] => []
  | (_, d) :: cs' =>
      let itemWidth := (h * aspectRatio d)%float in
      (Some {| style_height := h; style_width := itemWidth;
               style_left := left; style_top := localTop |}, d)
        :: place_items h localTop (left + (itemWidth + MARGIN))%float cs'
  end.

(** The outer [rows.forEach]: returns the rows laid out and the final
    [localTop]. *)
Fixpoint place_rows (w localTop : float) (rs : list (row_meta * list cell))
  : list (row_meta * list cell) * float :=
  match rs with
  | [] => ([], localTop)
  | (m, cs) :: rs' =>
      let h := row_height w m (length cs) in
      let '(out, final) := place_rows w (localTop + (h + MARGIN))%float rs' in
      ((m, place_items h localTop 0%float cs) :: out, final)
  end.

(** [set(top, width)]. *)
Definition set (s : t) (new_top : float) (new_width : jsnum) : t :=
  let s1 :=
    if strict_neq (top s) (num new_top) then
      {| attached := attached s; top := num new_top; width := width s;
         height := height s; index := index s;
         section_top := Some new_top;
         section_height := section_height s; rows := rows s |}
    else s in
  if strict_neq (width s1) new_width then
    let '(laid, localTop) := place_rows (ToNumber new_width) 0%float (rows s1) in
    {| attached := attached s1; top := top s1; width := new_width;
       height := num localTop; index := index s1;
       section_top := section_top s1;
       section_height := Some localTop; rows := laid |}
  else s1.

End Layout.

End SectionElement.

(** ** The tiling pass (tile.ts) *)

Module Tile.

(** Modelled from the spec: the function [tile] that index.ts imports from
    tile.ts, a file that is not part of the sources at hand.  The design
    document describes it as: accumulate items into the current row, summing
    aspect ratios; close the row once the running sum reaches the threshold
    (the row's aspect ratio is that sum) and start a new row; when the input
    ends with a row still open, withhold its items as the remainder if more
    data may come, and emit it as it is otherwise.

    [cur] and [sum] are the open row and its running sum. *)
Fixpoint tile_from (threshold : float) (hasMore : bool)
  (cur : list ItemData) (sum : float) (its : list ItemData)
  : list RowData * list ItemData :=
  match its with
  | [] =>
      match cur with
      | [] => ([], [])
      | _ :: _ =>
          if hasMore then ([], cur)
          else ([{| items := cur; row_aspectRatio := sum;
                    extraMargins := None |}], [])
      end
  | it :: rest =>
      let cur' := cur ++ [it] in
      let sum' := (sum + aspectRatio it)%float in
      if (threshold <=? sum')%float then
        let '(rows, remainder) := tile_from threshold hasMore [] 0%float rest in
        ({| items := cur'; row_aspectRatio := sum'; extraMargins := None |}
           :: rows, remainder)
      else tile_from threshold hasMore cur' sum' rest
  end.

Definition tile (its : list ItemData) (rowAspectRatioThreshold : float)
  (hasMore : bool) : list RowData * list ItemData :=
  tile_from rowAspectRatioThreshold hasMore [] 0%float its.

(** The running sum of a row's aspect ratios, from the left. *)
Definition ratio_sum (its : list ItemData) : float :=
  fold_left (fun acc it => (acc + aspectRatio it)%float) its 0%float.

End Tile.

(** ** The controller (index.ts) *)

Module Flashlight.

(** [Optional<Options>]: each option may be left out. *)
Record FlashlightOptions : Type := mkPartial {
  opt_margin : option float;
  opt_rowAspectRatioThreshold : option float
}.

Record FlashlightConfig : Type := mkConfig {
  initialRequestKey : cursor;
  config_options : FlashlightOptions
}.

(** The controller's fields and its [State].  [observed] is the flag the
    resize callback keeps ([attached] in the constructor); [hosted] tells
    whether the container has a parent element ([isAttached()]);
    [outstanding] lists the calls made to the pager whose promise is still
    pending, oldest first.  The render, click and updater delegates are not
    modelled. *)
Record State : Type := mkState {
  loading : bool;
  lastScrollTop : float;
  observed : bool;
  hosted : bool;
  containerHeight : jsnum;
  width : jsnum;
  height : float;
  currentRequestKey : cursor;
  currentRemainder : list ItemData;
  currentRowRemainder : list RowData;
  sections : list SectionElement.t;
  options : Options;
  activeSection : Z;
  lastSection : Z;
  clean : list Z;
  shownSections : list Z;
  itemIndexMap : gmap string nat;
  nextItemIndex : nat;
  config : FlashlightConfig;
  outstanding : list cursor
}.

Definition with_loading (v : bool) (st : State) : State :=
  mkState v (lastScrollTop st) (observed st) (hosted st) (containerHeight
    st) (width st) (height st) (currentRequestKey st) (currentRemainder st)
    (currentRowRemainder st) (sections st) (options st) (activeSection st)
    (lastSection st) (clean st) (shownSections st) (itemIndexMap st)
    (nextItemIndex st) (config st) (outstanding st).

Definition with_lastScrollTop (v : float) (st : State) : State :=
  mkState (loading st) v (observed st) (hosted st) (containerHeight st)
    (width st) (height st) (currentRequestKey st) (currentRemainder st)
    (currentRowRemainder st) (sections st) (options st) (activeSection st)
    (lastSection st) (clean st) (shownSections st) (itemIndexMap st)
    (nextItemIndex st) (config st) (outstanding st).

Definition with_observed (v : bool) (st : State) : State :=
  mkState (loading st) (lastScrollTop st) v (hosted st) (containerHeight st)
    (width st) (height st) (currentRequestKey st) (currentRemainder st)
    (currentRowRemainder st) (sections st) (options st) (activeSection st)
    (lastSection st) (clean st) (shownSections st) (itemIndexMap st)
    (nextItemIndex st) (config st) (outstanding st).

Definition with_hosted (v : bool) (st : State) : State :=
  mkState (loading st) (lastScrollTop st) (observed st) v (containerHeight
    st) (width st) (height st) (currentRequestKey st) (currentRemainder st)
    (currentRowRemainder st) (sections st) (options st) (activeSection st)
    (lastSection st) (clean st) (shownSections st) (itemIndexMap st)
    (nextItemIndex st) (config st) (outstanding st).

Definition with_containerHeight (v : jsnum) (st : State) : State :=
  mkState (loading st) (lastScrollTop st) (observed st) (hosted st) v (width
    st) (height st) (currentRequestKey st) (currentRemainder st)
    (currentRowRemainder st) (sections st) (options st) (activeSection st)
    (lastSection st) (clean st) (shownSections st) (itemIndexMap st)
    (nextItemIndex st) (config st) (outstanding st).

Definition with_width (v : jsnum) (st : State) : State :=
  mkState (loading st) (lastScrollTop st) (observed st) (hosted st)
    (containerHeight st) v (height st) (currentRequestKey st)
    (currentRemainder st) (currentRowRemainder st) (sections st) (options
    st) (activeSection st) (lastSection st) (clean st) (shownSections st)
    (itemIndexMap st) (nextItemIndex st) (config st) (outstanding st).

Definition with_height (v : float) (st : State) : State :=
  mkState (loading st) (lastScrollTop st) (observed st) (hosted st)
    (containerHeight st) (width st) v (currentRequestKey st)
    (currentRemainder st) (currentRowRemainder st) (sections st) (options
    st) (activeSection st) (lastSection st) (clean st) (shownSections st)
    (itemIndexMap st) (nextItemIndex st) (config st) (outstanding st).

Definition with_currentRequestKey (v : cursor) (st : State) : State :=
  mkState (loading st) (lastScrollTop st) (observed st) (hosted st)
    (containerHeight st) (width st) (height st) v (currentRemainder st)
    (currentRowRemainder st) (sections st) (options st) (activeSection st)
    (lastSection st) (clean st) (shownSections st) (itemIndexMap st)
    (nextItemIndex st) (config st) (outstanding st).

Definition with_currentRemainder (v : list ItemData) (st : State) : State :=
  mkState (loading st) (lastScrollTop st) (observed st) (hosted st)
    (containerHeight st) (width st) (height st) (currentRequestKey st) v
    (currentRowRemainder st) (sections st) (options st) (activeSection st)
    (lastSection st) (clean st) (shownSections st) (itemIndexMap st)
    (nextItemIndex st) (config st) (outstanding st).

Definition with_currentRowRemainder (v : list RowData) (st : State) : State :=
  mkState (loading st) (lastScrollTop st) (observed st) (hosted st)
    (containerHeight st) (width st) (height st) (currentRequestKey st)
    (currentRemainder st) v (sections st) (options st) (activeSection st)
    (lastSection st) (clean st) (shownSections st) (itemIndexMap st)
    (nextItemIndex st) (config st) (outstanding st).

Definition with_sections (v : list SectionElement.t) (st : State) : State :=
  mkState (loading st) (lastScrollTop st) (observed st) (hosted st)
    (containerHeight st) (width st) (height st) (currentRequestKey st)
    (currentRemainder st) (currentRowRemainder st) v (options st)
    (activeSection st) (lastSection st) (clean st) (shownSections st)
    (itemIndexMap st) (nextItemIndex st) (config st) (outstanding st).

Definition with_options (v : Options) (st : State) : State :=
  mkState (loading st) (lastScrollTop st) (observed st) (hosted st)
    (containerHeight st) (width st) (height st) (currentRequestKey st)
    (currentRemainder st) (currentRowRemainder st) (sections st) v
    (activeSection st) (lastSection st) (clean st) (shownSections st)
    (itemIndexMap st) (nextItemIndex st) (config st) (outstanding st).

Definition with_activeSection (v : Z) (st : State) : State :=
  mkState (loading st) (lastScrollTop st) (observed st) (hosted st)
    (containerHeight st) (width st) (height st) (currentRequestKey st)
    (currentRemainder st) (currentRowRemainder st) (sections st) (options
    st) v (lastSection st) (clean st) (shownSections st) (itemIndexMap st)
    (nextItemIndex st) (config st) (outstanding st).

Definition with_lastSection (v : Z) (st : State) : State :=
  mkState (loading st) (lastScrollTop st) (observed st) (hosted st)
    (containerHeight st) (width st) (height st) (currentRequestKey st)
    (currentRemainder st) (currentRowRemainder st) (sections st) (options
    st) (activeSection st) v (clean st) (shownSections st) (itemIndexMap st)
    (nextItemIndex st) (config st) (outstanding st).

Definition with_clean (v : list Z) (st : State) : State :=
  mkState (loading st) (lastScrollTop st) (observed st) (hosted st)
    (containerHeight st) (width st) (height st) (currentRequestKey st)
    (currentRemainder st) (currentRowRemainder st) (sections st) (options
    st) (activeSection st) (lastSection st) v (shownSections st)
    (itemIndexMap st) (nextItemIndex st) (config st) (outstanding st).

Definition with_shownSections (v : list Z) (st : State) : State :=
  mkState (loading st) (lastScrollTop st) (observed st) (hosted st)
    (containerHeight st) (width st) (height st) (currentRequestKey st)
    (currentRemainder st) (currentRowRemainder st) (sections st) (options
    st) (activeSection st) (lastSection st) (clean st) v (itemIndexMap st)
    (nextItemIndex st) (config st) (outstanding st).

Definition with_itemIndexMap (v : gmap string nat) (st : State) : State :=
  mkState (loading st) (lastScrollTop st) (observed st) (hosted st)
    (containerHeight st) (width st) (height st) (currentRequestKey st)
    (currentRemainder st) (currentRowRemainder st) (sections st) (options
    st) (activeSection st) (lastSection st) (clean st) (shownSections st) v
    (nextItemIndex st) (config st) (outstanding st).

Definition with_nextItemIndex (v : nat) (st : State) : State :=
  mkState (loading st) (lastScrollTop st) (observed st) (hosted st)
    (containerHeight st) (width st) (height st) (currentRequestKey st)
    (currentRemainder st) (currentRowRemainder st) (sections st) (options
    st) (activeSection st) (lastSection st) (clean st) (shownSections st)
    (itemIndexMap st) v (config st) (outstanding st).

Definition with_config (v : FlashlightConfig) (st : State) : State :=
  mkState (loading st) (lastScrollTop st) (observed st) (hosted st)
    (containerHeight st) (width st) (height st) (currentRequestKey st)
    (currentRemainder st) (currentRowRemainder st) (sections st) (options
    st) (activeSection st) (lastSection st) (clean st) (shownSections st)
    (itemIndexMap st) (nextItemIndex st) v (outstanding st).

Definition with_outstanding (v : list cursor) (st : State) : State :=
  mkState (loading st) (lastScrollTop st) (observed st) (hosted st)
    (containerHeight st) (width st) (height st) (currentRequestKey st)
    (currentRemainder st) (currentRowRemainder st) (sections st) (options
    st) (activeSection st) (lastSection st) (clean st) (shownSections st)
    (itemIndexMap st) (nextItemIndex st) (config st) v.

(** What running a piece of the controller ends in: a normal return, a
    [TypeError] thrown in the state reached so far, or a loop that the
    given number of iterations did not end. *)
Inductive run (A : Type) : Type :=
| Ok (a : A)
| Throw (st : State)
| Spin.
Arguments Ok {A} a.
Arguments Throw {A} st.
Arguments Spin {A}.

(** Sequencing: what follows a throw does not run. *)
#[global] Instance run_ret : MRet run := fun A a => Ok a.
#[global] Instance run_bind : MBind run := fun A B k m =>
  match m with
  | Ok a => k a
  | Throw st => Throw st
  | Spin => Spin
  end.

(** The state a callback leaves behind, [st0] being the one it began in. *)
Definition after (st0 : State) (r : run State) : State :=
  match r with
  | Ok st => st
  | Throw st => st
  | Spin => st0
  end.

(** [array.forEach(body)], the body throwing or not. *)
Fixpoint forEach {A : Type} (body : State → A → run State) (l : list A)
  (st : State) : run State :=
  match l with
  | [] => Ok st
  | x :: l' => st' ← body st x; forEach body l' st'
  end.

(** [sections[i]] for a number [i]. *)
Definition sec_at (l : list SectionElement.t) (i : Z) : option SectionElement.t :=
  if i <? 0 then None else l !! Z.to_nat i.

(** A [Set<number>], in insertion order. *)
Definition has (s : list Z) (i : Z) : bool := bool_decide (i ∈ s).
Definition add (s : list Z) (i : Z) : list Z := if has s i then s else s ++ [i].
Definition delete (s : list Z) (i : Z) : list Z :=
  filter (fun j => j ≠ i) s.

(** Merging a partial record of options over a full one. *)
Definition merge (base : Options) (o : FlashlightOptions) : Options :=
  {| margin := default (margin base) (opt_margin o);
     rowAspectRatioThreshold :=
       default (rowAspectRatioThreshold base) (opt_rowAspectRatioThreshold o) |}.

(** [getEmptyState(config)], with the fields of the controller that are
    not part of its [State] object and so outlive it. *)
Definition getEmptyState (cfg : FlashlightConfig) (was_loading : bool)
  (scrollTop : float) (obs : bool) (parent : bool) (pending : list cursor)
  : State :=
  {| loading := was_loading; lastScrollTop := scrollTop; observed := obs;
     hosted := parent;
     containerHeight := null; width := null; height := 0%float;
     currentRequestKey := initialRequestKey cfg;
     currentRemainder := []; currentRowRemainder := [];
     sections := [];
     options := merge {| margin := 3%float; rowAspectRatioThreshold := 5%float |}
                      (config_options cfg);
     activeSection := 0; lastSection := 0;
     clean := []; shownSections := [];
     itemIndexMap := ∅; nextItemIndex := 0%nat;
     config := cfg; outstanding := pending |}.

(** [get()]: the pagination step. *)
Definition get (st : State) : State :=
  if loading st || is_null (currentRequestKey st) then st
  else with_outstanding (outstanding st ++ [currentRequestKey st])
         (with_loading true st).

Section Controller.

(** [MARGIN] and [NUM_ROWS_PER_SECTION] of constants.ts, which is not part
    of the sources at hand; the latter is a positive number of rows. *)
Variable MARGIN : float.
Variable NUM_ROWS_PER_SECTION : nat.

(** The two loops of [tile] that number the items of the new rows. *)
Definition assign_items (its : list ItemData) (mn : gmap string nat * nat)
  : gmap string nat * nat :=
  fold_left (fun '(m, n) it => (<[id it := n]> m, S n)) its mn.

Definition assign_rows (rows : list RowData) (mn : gmap string nat * nat)
  : gmap string nat * nat :=
  fold_left (fun acc r => assign_items (items r) acc) rows mn.

(** [rows.splice(0, NUM_ROWS_PER_SECTION)], [count] times. *)
Fixpoint splice_all (count : nat) (rows : list RowData) : list (list RowData) :=
  match count with
  | O => []
  | S c =>
      take NUM_ROWS_PER_SECTION rows
        :: splice_all c (drop NUM_ROWS_PER_SECTION rows)
  end.

(** [Math.ceil(n / NUM_ROWS_PER_SECTION)]. *)
Definition section_count (n : nat) : nat :=
  ((n + NUM_ROWS_PER_SECTION - 1) / NUM_ROWS_PER_SECTION)%nat.

(** The private method [tile(items, useRowRemainder)]. *)
Definition tile (st : State) (its : list ItemData) (useRowRemainder : bool)
  : State * list (list RowData) :=
  let '(rows, remainder) :=
    Tile.tile its (rowAspectRatioThreshold (options st))
              (truthy (currentRequestKey st)) in
  let '(m, n) := assign_rows rows (itemIndexMap st, nextItemIndex st) in
  let st1 := with_currentRemainder remainder
               (with_nextItemIndex n (with_itemIndexMap m st)) in
  let rows' := if useRowRemainder then currentRowRemainder st1 ++ rows else rows in
  (st1, splice_all (section_count (length rows')) rows').

(** The body of [sections.forEach]: builds the next section, lays it out
    below the content so far and pushes it; then hands
    [sectionElement.target] to the observer and to the container.  The
    third argument the controller passes to [set], [options.margin], has
    no parameter to land in: [set] takes [(top, width)].  And [target]
    being [undefined], [observe] throws a [TypeError]: the section has
    been pushed, the height has not been raised. *)
Definition append_section (mark_clean : bool) (st : State) (rows : list RowData)
  : run State :=
  let sectionElement :=
    SectionElement.set MARGIN
      (SectionElement.new (Z.of_nat (length (sections st))) rows)
      (height st) (width st) in
  let st1 := with_sections (sections st ++ [sectionElement]) st in
  match SectionElement.target sectionElement with
  | None => Throw st1
  | Some _ =>
      let st2 := with_height
                   (height st1
                    + ToNumber (SectionElement.getHeight sectionElement))%float
                   st1 in
      Ok (if mark_clean
          then with_clean (add (clean st2) (SectionElement.index sectionElement))
                          st2
          else st2)
  end.

(** The test that ends the fetch handler: whether to page again. *)
Definition wants_more (st : State) (produced : nat) (next : cursor) : bool :=
  (height st <=? ToNumber (containerHeight st))%float
  || ((produced =? 0)%nat && truthy next)
  || match last (sections st) with
     | Some headSection => has (shownSections st) (SectionElement.index headSection)
     | None => false
     end.

(** The fetch handler up to and including [this.loading = false]: the
    state reached and the number of sections this pass was to append. *)
Definition settle (st : State) (r : Response) : run (State * nat) :=
  let next := nextRequestKey r in
  let st1 := with_currentRequestKey next st in
  let its := currentRemainder st1 ++ resp_items r in
  let '(st2, secs) := tile st1 its true in
  let '(st3, secs') :=
    match last secs with
    | Some lastSection =>
        if truthy next && negb (length lastSection =? NUM_ROWS_PER_SECTION)%nat then
          let st' := with_currentRowRemainder lastSection st2 in
          let kept := removelast secs in
          (if (length kept =? 0)%nat then get st' else st', kept)
        else (with_currentRowRemainder [] st2, secs)
    | None => (with_currentRowRemainder [] st2, secs)
    end in
  st4 ← forEach (append_section true) secs' st3;
  Ok (with_loading false (with_currentRequestKey next st4), length secs').

(** The whole handler [.then(({ items, nextRequestKey }) => ...)]. *)
Definition resolve (st : State) (r : Response) : run State :=
  '(st', produced) ← settle st r;
  Ok (if wants_more st' produced (nextRequestKey r) then get st' else st').

(** [updateOptions(options)] up to the scheduling of the rebuild: the
    state with the options merged and whether a rebuild was scheduled.
    [!=] on two numbers is [true] exactly when [==] fails. *)
Definition changed (old : float) (v : option float) : bool :=
  match v with
  | Some x => negb (PrimFloat.eqb old x)
  | None => false
  end.

Definition updateOptions (st : State) (o : FlashlightOptions) : State * bool :=
  let retile := changed (margin (options st)) (opt_margin o)
                || changed (rowAspectRatioThreshold (options st))
                           (opt_rowAspectRatioThreshold o) in
  (with_options (merge (options st) o) st, retile).

(** The flat list the rebuild tiles again. *)
Definition rebuild_items (st : State) : list ItemData :=
  flat_map SectionElement.getItems (sections st)
  ++ flat_map items (currentRowRemainder st).

(** The callback [updateOptions] schedules when an option changed. *)
Definition rebuild (st : State) : run State :=
  let '(st1, secs) := tile st (rebuild_items st) false in
  let finish (st2 : State) (secs' : list (list RowData)) : run State :=
    let st3 := with_clean [] (with_shownSections []
                 (with_sections [] (with_height 0%float st2))) in
    forEach (append_section false) secs' st3 in
  if truthy (currentRequestKey st1) then
    match last secs with
    | None => Throw st1
    | Some lastSection =>
        if negb (length lastSection =? NUM_ROWS_PER_SECTION)%nat then
          let st' := with_currentRowRemainder lastSection st1 in
          let kept := removelast secs in
          finish (if (length kept =? 0)%nat then get st' else st') kept
        else finish (with_currentRowRemainder [] st1) secs
    end
  else finish (with_currentRowRemainder [] st1) secs.

(** [attach(element)], given the box measured; the container gets a
    parent. *)
Definition attach (st : State) (w h : float) : State :=
  with_hosted true
    (with_containerHeight (num h) (with_width (num (w - 16)%float) st)).

(** [reset()], given the box of the parent.  The state is emptied first;
    then the parent of the container is measured, a [TypeError] when the
    container has none. *)
Definition reset (st : State) (w h : float) : run State :=
  let fresh := getEmptyState (config st) (loading st) (lastScrollTop st)
                 (observed st) (hosted st) (outstanding st) in
  if hosted st
  then Ok (get (with_containerHeight (num h)
                  (with_width (num (w - 16)%float) fresh)))
  else Throw fresh.

(** The constructor. *)
Definition construct (cfg : FlashlightConfig) : State :=
  with_lastScrollTop 0%float
    (get (getEmptyState cfg false 0%float false false [])).

(** [reposition(width)] and the resize callback in front of it.  After
    the layout the callback reads [activeSection.target.scrollTo]: a
    [TypeError] when [activeSection] names no section, and also when it
    names one, [target] being [undefined]. *)
Definition relayout (w : float) (acc : list SectionElement.t * float)
  (s : SectionElement.t) : list SectionElement.t * float :=
  let s' := SectionElement.set MARGIN s (snd acc) (num w) in
  (fst acc ++ [s'], (snd acc + ToNumber (SectionElement.getHeight s'))%float).

Definition reposition (st : State) (w : float) : run State :=
  if strict_eq (num w) (width st) then Ok st
  else
    let st1 := with_width (num w) st in
    let st2 := with_sections
                 (fst (fold_left (relayout w) (sections st1) ([], 0%float))) st1 in
    match sec_at (sections st2) (activeSection st2) with
    | None => Throw st2
    | Some active =>
        match SectionElement.target active with
        | None => Throw st2
        | Some _ =>
            Ok (with_lastScrollTop (ToNumber (SectionElement.getTop active)) st2)
        end
    end.

Definition onResize (st : State) (w : float) : run State :=
  if observed st then reposition st w else Ok (with_observed true st).

(** *** The visibility observer ([setObservers]) *)

(** [showSection(index)].  It calls [section.show()] with no argument,
    and [show(element)] reads [element.appendChild]: a section that is not
    mounted is not mounted by it, the call throws. *)
Definition showSection (st : State) (i : Z) : run State :=
  match sec_at (sections st) i with
  | None => Ok st
  | Some section =>
      if SectionElement.isShown section then Ok st
      else
        match SectionElement.show_at None section with
        | None => Throw st
        | Some shown =>
            Ok (with_shownSections
                  (add (shownSections st) (SectionElement.index section))
                  (with_sections (<[Z.to_nat i := shown]> (sections st)) st))
        end
  end.

Definition hideSection (st : State) (i : Z) : State :=
  match sec_at (sections st) i with
  | None => st
  | Some section =>
      if negb (SectionElement.isShown section) then st
      else
        with_shownSections
          (delete (shownSections st) (SectionElement.index section))
          (with_sections
             (<[Z.to_nat i := SectionElement.hide section]> (sections st)) st)
  end.

(** [[...shownSections].forEach]: over the members as they were. *)
Definition clearOutsideSections (st : State) : State :=
  fold_left
    (fun s i =>
       if (i <? activeSection s) || (i >? lastSection s) then hideSection s i
       else s)
    (shownSections st) st.

Definition requestMore (st : State) : State :=
  if truthy (currentRequestKey st)
     && (lastSection st >=? Z.of_nat (length (sections st)) - 2)
  then get st else st.

Definition finalize (st : State) : State :=
  requestMore (clearOutsideSections st).

(** Scrolling down, first loop: step back while the section starts at or
    below the scroll offset. *)
Fixpoint rewind (fuel : nat) (st : State) (scrollTop : float)
  (revealingIndex : Z) (revealing : option SectionElement.t) : run Z :=
  if revealingIndex >? 0 then
    match revealing with
    | None => Throw st
    | Some r =>
        if (scrollTop <=? ToNumber (SectionElement.getTop r))%float then
          match fuel with
          | O => Spin
          | S f =>
              rewind f st scrollTop (revealingIndex - 1)
                (sec_at (sections st) (revealingIndex - 1))
          end
        else Ok revealingIndex
    end
  else Ok revealingIndex.

(** Scrolling down, the [do ... while]: show sections forward while they
    start at or above the lower edge [bound] of the viewport. *)
Fixpoint reveal_down (fuel : nat) (st : State) (bound : float)
  (revealingIndex : Z) (revealing : option SectionElement.t)
  : run (State * Z * option SectionElement.t) :=
  match fuel with
  | O => Spin
  | S f =>
      st1 ← showSection st revealingIndex;
      match revealing with
      | None => Throw st1
      | Some r =>
          let i := SectionElement.index r + 1 in
          match sec_at (sections st1) i with
          | Some r' =>
              if (ToNumber (SectionElement.getTop r') <=? bound)%float
              then reveal_down f st1 bound i (Some r')
              else Ok (st1, i, Some r')
          | None => Ok (st1, i, None)
          end
      end
  end.

Definition sweep_down (st : State) (section : SectionElement.t)
  (scrollTop : float) : run State :=
  let start := SectionElement.index section in
  i0 ← rewind (Z.to_nat start) st scrollTop start (Some section);
  let i1 := Z.max 0 (i0 - 1) in
  let st1 := with_activeSection i1 st in
  let bound := (scrollTop + ToNumber (containerHeight st))%float in
  '(st2, i2, revealing) ← reveal_down (S (length (sections st))) st1 bound i1
                            (sec_at (sections st) i1);
  let st3 :=
    with_lastSection
      (match revealing with None => i2 - 1 | Some _ => i2 end) st2 in
  st4 ← showSection st3 (lastSection st3);
  Ok (finalize st4).

(** Scrolling up, first loop: step forward while the section starts at or
    above the lower edge of the viewport. *)
Fixpoint advance (fuel : nat) (st : State) (bound : float)
  (revealingIndex : Z) (revealing : option SectionElement.t) : run Z :=
  if revealingIndex >? 0 then
    match revealing with
    | None => Throw st
    | Some r =>
        if (ToNumber (SectionElement.getTop r) <=? bound)%float then
          match fuel with
          | O => Spin
          | S f =>
              advance f st bound (revealingIndex + 1)
                (sec_at (sections st) (revealingIndex + 1))
          end
        else Ok revealingIndex
    end
  else Ok revealingIndex.

(** Scrolling up, the [do ... while]: show sections backward while they
    end at or below the scroll offset. *)
Fixpoint reveal_up (fuel : nat) (st : State) (scrollTop : float)
  (revealingIndex : Z) (revealing : option SectionElement.t)
  : run (State * Z * option SectionElement.t) :=
  match fuel with
  | O => Spin
  | S f =>
      st1 ← showSection st revealingIndex;
      match revealing with
      | None => Throw st1
      | Some r =>
          let i := SectionElement.index r - 1 in
          match sec_at (sections st1) i with
          | Some r' =>
              if (scrollTop <=? ToNumber (SectionElement.getTop r')
                                + ToNumber (SectionElement.getHeight r'))%float
              then reveal_up f st1 scrollTop i (Some r')
              else Ok (st1, i, Some r')
          | None => Ok (st1, i, None)
          end
      end
  end.

Definition sweep_up (st : State) (section : SectionElement.t)
  (scrollTop : float) : run State :=
  let len := length (sections st) in
  let bound := (scrollTop + ToNumber (containerHeight st))%float in
  i0 ← advance (S len) st bound (SectionElement.index section) (Some section);
  let i1 := Z.min (Z.of_nat len - 1) (i0 + 1) in
  let st1 := with_lastSection i1 st in
  '(st2, i2, revealing) ← reveal_up (S len) st1 scrollTop i1
                            (sec_at (sections st) i1);
  let st3 :=
    with_activeSection
      (match revealing with None => i2 + 1 | Some _ => i2 end) st2 in
  st4 ← showSection st3 (activeSection st3);
  Ok (finalize st4).

(** An entry of a batch: the index its target carries and the ratio. *)
Record entry : Type := mkEntry {
  target_index : Z;
  intersectionRatio : float
}.

(** The [for ... of entries] loop, which the first sweep leaves. *)
Fixpoint each_entry (st : State) (scrollTop : float) (down : bool)
  (entries : list entry) : run State :=
  match entries with
  | [] => Ok st
  | e :: rest =>
      match sec_at (sections st) (target_index e) with
      | None => Throw st
      | Some section =>
          let i := SectionElement.index section in
          st1 ← (if truthy_num (intersectionRatio e)
                 then st' ← showSection st i;
                      Ok (with_shownSections (add (shownSections st') i) st')
                 else Ok st);
          if has (shownSections st1) i then
            if down then sweep_down st1 section scrollTop
            else sweep_up st1 section scrollTop
          else each_entry st1 scrollTop down rest
      end
  end.

(** The observer's callback, at scroll offset [scrollTop] of the parent
    of the container: reading it is a [TypeError] when there is no
    parent. *)
Definition onIntersect (st : State) (scrollTop : float) (entries : list entry)
  : run State :=
  if hosted st then
    let down := (lastScrollTop st <=? scrollTop)%float in
    st' ← each_entry st scrollTop down entries;
    Ok (with_lastScrollTop scrollTop st')
  else Throw st.

(** *** Runs of the controller *)

(** What the host page and the pager can do to a controller. *)
Inductive event : Type :=
| EAttach (w h : float)
| EReset (w h : float)
| EUpdateOptions (o : FlashlightOptions)
| ERebuild
| EResolve (r : Response)
| EReject
| EIntersect (scrollTop : float) (entries : list entry)
| EResize (w : float).

(** One event.  A response or a rejection concerns the oldest pending
    call; without a pending call there is none to deliver.  [ERebuild] is
    the animation frame running a rebuild that [updateOptions] scheduled.
    A callback that throws leaves the state it had reached. *)
Definition react (st : State) (ev : event) : State :=
  match ev with
  | EAttach w h => attach st w h
  | EReset w h => after st (reset st w h)
  | EUpdateOptions o => fst (updateOptions st o)
  | ERebuild => after st (rebuild st)
  | EResolve r =>
      match outstanding st with
      | [] => st
      | _ :: pending =>
          after (with_outstanding pending st)
                (resolve (with_outstanding pending st) r)
      end
  | EReject =>
      match outstanding st with
      | [] => st
      | _ :: pending => with_outstanding pending st
      end
  | EIntersect scrollTop entries => after st (onIntersect st scrollTop entries)
  | EResize w => after st (onResize st w)
  end.

Definition run_events (cfg : FlashlightConfig) (evs : list event) : State :=
  fold_left react evs (construct cfg).

End Controller.

End Flashlight.

(** ** Array helpers of the looker (looker/src/util.ts) *)

Module LookerUtil.

(** The position [Array.prototype.slice] makes of a relative index [k] in
    an array of [len] elements: from the end when negative, and clamped. *)
Definition rel_index (len : nat) (k : Z) : nat :=
  if k <? 0 then Z.to_nat (Z.max (Z.of_nat len + k) 0)
  else Z.to_nat (Z.min k (Z.of_nat len)).

(** [array.slice(start, end)], [end] being optional. *)
Definition slice {A : Type} (array : list A) (start : Z) (finish : option Z)
  : list A :=
  let k := rel_index (length array) start in
  let final := match finish with
               | None => length array
               | Some e => rel_index (length array) e
               end in
  take (final - k) (drop k array).

(** [rotate(array, rotation)], for an integer [rotation]. *)
Definition rotate {A : Type} (array : list A) (rotation : Z) : list A * Z :=
  let rotation := Z.min rotation (Z.of_nat (length array) - 1) in
  (slice array rotation None ++ slice array 0 (Some rotation), rotation).

Section ArgMin.

(** The element type [T] of [argMin<T>] and its [<]. *)
Variable T : Type.
Variable lt : T → T → bool.

(** [argMin(array)]: [reduce] has no initial value, so that it throws a
    [TypeError] on an empty array ([None]). *)
Definition argMin (array : list T) : option nat :=
  match imap (fun i x => (x, i)) array with
  | [] => None
  | first :: rest =>
      Some (snd (fold_left (fun r a => if lt (fst a) (fst r) then a else r)
                           rest first))
  end.

End ArgMin.

End LookerUtil.

(** * Vocabulary of the properties *)

Section Vocabulary.

Import Tile Flashlight.

(** What a pass promises about its rows and its remainder, given the open
    row [cur] it starts from: every row carries the running sum of its
    items, is not empty, was closed by the first item with which the sum
    reached the threshold, and reaches it unless it is the last row of a
    pass with no more data to come; a remainder is held back only when
    more data may come, and no row could have been closed within it; and
    the rows' items followed by the remainder are the items given, in
    their order. *)
Definition tiled (threshold : float) (hasMore : bool) (cur its : list ItemData)
  (out : list RowData * list ItemData) : Prop :=
  (∀ (i : nat) (r : RowData), out.1 !! i = Some r →
     row_aspectRatio r = ratio_sum (items r)
     ∧ ((S i < length out.1)%nat ∨ hasMore = true →
        (threshold <=? row_aspectRatio r)%float = true)
     ∧ items r ≠ []
     ∧ (∀ k : nat, (0 < k < length (items r))%nat →
          (threshold <=? ratio_sum (take k (items r)))%float = false))
  ∧ (hasMore = true →
     ∀ k : nat, (0 < k ≤ length out.2)%nat →
       (threshold <=? ratio_sum (take k out.2))%float = false)
  ∧ (hasMore = false → out.2 = [])
  ∧ flat_map items out.1 ++ out.2 = cur ++ its.

(** How a piece of the controller may change the flag and the pending
    calls: not at all, or by one call made while the flag was down. *)
Definition flies (st st' : State) : Prop :=
  (loading st' = loading st ∧ outstanding st' = outstanding st)
  ∨ (loading st = false ∧ loading st' = true
     ∧ ∃ k, outstanding st' = outstanding st ++ [k]).

(** The single-flight invariant: at most one call is pending, and the
    flag is up while one is. *)
Definition single_flight (st : State) : Prop :=
  (length (outstanding st) ≤ 1)%nat ∧ (outstanding st ≠ [] → loading st = true).

(** A section with its mount flag down, and a controller state with the
    flags of all its sections down and no section recorded as shown: what
    mounting and unmounting leave alone. *)
Definition unmount (s : SectionElement.t) : SectionElement.t :=
  SectionElement.mk false (SectionElement.top s) (SectionElement.width s)
    (SectionElement.height s) (SectionElement.index s)
    (SectionElement.section_top s) (SectionElement.section_height s)
    (SectionElement.rows s).

Definition strip (st : State) : State :=
  with_shownSections [] (with_sections (unmount <$> sections st) st).

(** What holds of the sections along every run: each carries its position
    as its index, and none is mounted or recorded as shown. *)
Definition wf (st : State) : Prop :=
  (∀ (i : nat) (s : SectionElement.t),
     sections st !! i = Some s → SectionElement.index s = Z.of_nat i)
  ∧ shownSections st = []
  ∧ Forall (fun s => SectionElement.attached s = false) (sections st).

(** What the observer's callback leaves alone besides: the flag and the
    pending calls, the window and the last scroll offset put aside. *)
Definition frame (st : State) : State :=
  with_loading false (with_outstanding [] (with_activeSection 0
    (with_lastSection 0 (with_lastScrollTop 0%float (strip st))))).

(** What the bookkeeping reads of a section: its index and its flag. *)
Definition mount_of (s : SectionElement.t) : Z * bool :=
  (SectionElement.index s, SectionElement.attached s).

(** The loading flag with the pending calls. *)
Definition flight (st : State) : bool * list cursor :=
  (loading st, outstanding st).

(** The state in which the body of [sections.forEach] throws: the section
    built from [rows] has been laid out and pushed. *)
Definition pushed (MARGIN : float) (st : State) (rows : list RowData) : State :=
  with_sections
    (sections st
     ++ [SectionElement.set MARGIN
           (SectionElement.new (Z.of_nat (length (sections st))) rows)
           (height st) (width st)]) st.

(** The rows a rebuild numbers. *)
Definition rebuilt_rows (st : State) : list RowData :=
  (Tile.tile (rebuild_items st) (rowAspectRatioThreshold (options st))
     (truthy (currentRequestKey st))).1.

(** The items a controller holds: those of its sections, those of the rows
    held back, and the items held back. *)
Definition all_items (st : State) : list ItemData :=
  flat_map SectionElement.getItems (sections st)
  ++ flat_map items (currentRowRemainder st)
  ++ currentRemainder st.

(** The calls a section takes once it is built ([show] with an element to
    attach it to), and a section after one such call. *)
Inductive section_call : Type :=
| CSet (top : float) (width : jsnum)
| CShow
| CHide.

Definition call (MARGIN : float) (s : SectionElement.t) (c : section_call)
  : SectionElement.t :=
  match c with
  | CSet t w => SectionElement.set MARGIN s t w
  | CShow => SectionElement.show s
  | CHide => SectionElement.hide s
  end.

End Vocabulary.

(** * Scenarios

    Runs of a controller in a host box 116 pixels wide (100 once the 16
    pixels the controller takes off are gone), on which the properties
    below are evaluated. *)

Module Constants.

(** Modelled from the spec: constants.ts is not part of the sources at
    hand.  [MARGIN] is given the value the design document states for the
    margin (3 pixels, the default of the margin option); the document
    gives no number of rows per section, and the scenarios take 40.  Every
    theorem that is not about a scenario holds for all values of the two
    constants. *)
Definition MARGIN : float := 3%float.
Definition NUM_ROWS_PER_SECTION : nat := 40.

End Constants.

Definition item (name : string) (ratio : float) : ItemData :=
  {| id := name; aspectRatio := ratio |}.

Definition six_items : list ItemData :=
  [item "a" 2; item "b" 2; item "c" 2; item "d" 3; item "e" 3; item "f" 1].

Definition defaults : Flashlight.FlashlightConfig :=
  {| Flashlight.initialRequestKey := Key 1;
     Flashlight.config_options :=
       {| Flashlight.opt_margin := None;
          Flashlight.opt_rowAspectRatioThreshold := None |} |}.

(** A controller that has only been attached. *)
Definition attached_only : list Flashlight.event :=
  [Flashlight.EAttach 116 400].

(** A first page of six items, with more to come: its rows are fewer
    than a section takes and are held back. *)
Definition six_more : Response :=
  {| resp_items := six_items; nextRequestKey := Key 2 |}.

Definition first_page : list Flashlight.event :=
  attached_only ++ [Flashlight.EResolve six_more].

(** A change of the row threshold to 7, and the first page followed by
    it. *)
Definition threshold_seven : Flashlight.FlashlightOptions :=
  {| Flashlight.opt_margin := None;
     Flashlight.opt_rowAspectRatioThreshold := Some 7%float |}.

Definition threshold_changed : list Flashlight.event :=
  first_page ++ [Flashlight.EUpdateOptions threshold_seven].

(** A page with no item, whose response carries no [nextRequestKey], and
    one that carries [null]. *)
Definition keyless_empty_page : list Flashlight.event :=
  attached_only
  ++ [Flashlight.EResolve {| resp_items := []; nextRequestKey := KUndefined |}].

Definition null_empty_page : list Flashlight.event :=
  attached_only
  ++ [Flashlight.EResolve {| resp_items := []; nextRequestKey := KNull |}].


(** A controller configured with a margin of 10, and its only page: two
    square items. *)
Definition wide_margin : Flashlight.FlashlightConfig :=
  {| Flashlight.initialRequestKey := Key 1;
     Flashlight.config_options :=
       {| Flashlight.opt_margin := Some 10%float;
          Flashlight.opt_rowAspectRatioThreshold := None |} |}.

Definition two_squares : list Flashlight.event :=
  [Flashlight.EAttach 116 400;
   Flashlight.EResolve
     {| resp_items := [item "a" 1; item "b" 1]; nextRequestKey := KNull |}].



Abbreviation scenario :=
  (Flashlight.run_events Constants.MARGIN
     Constants.NUM_ROWS_PER_SECTION).

(** The heights [set] wrote on the items of a section's rows. *)
Definition item_heights (s : SectionElement.t) : list (list (option float)) :=
  map (fun r => map (fun c => SectionElement.style_height <$> fst c) (snd r))
      (SectionElement.rows s).

(** A section of one row of two square items, laid out at width 100. *)
Definition laid_out : SectionElement.t :=
  SectionElement.set Constants.MARGIN
    (SectionElement.new 0
       [{| items := [item "a" 1; item "b" 1]; row_aspectRatio := 2;
           extraMargins := None |}])
    0 (num 100).

(** * Properties *)

(** ** Layout of a section *)

Section LayoutFacts.

Variable MARGIN : float.

Import SectionElement.

Lemma place_items_length (h lt left : float) (cs : list cell) :
  length (place_items MARGIN h lt left cs) = length cs.
Proof.
  revert left. induction cs as [|[p d] cs IH]; intros left; simpl; [done|].
  by rewrite IH.
Qed.

(** A layout pass overwrites every placement: what was there before does
    not matter. *)
Lemma place_items_again (h lt left h' lt' left' : float) (cs : list cell) :
  place_items MARGIN h lt left (place_items MARGIN h' lt' left' cs)
  = place_items MARGIN h lt left cs.
Proof.
  revert left left'. induction cs as [|[p d] cs IH]; intros left left'; simpl; [done|].
  by rewrite IH.
Qed.

Lemma place_rows_again (w lt w' lt' : float) (rs : list (row_meta * list cell)) :
  place_rows MARGIN w lt (place_rows MARGIN w' lt' rs).1
  = place_rows MARGIN w lt rs.
Proof.
  revert lt lt'. induction rs as [|[m cs] rs IH]; intros lt lt'; simpl; [done|].
  destruct (place_rows MARGIN w' _ rs) as [out' fin'] eqn:E'. simpl.
  rewrite place_items_length, place_items_again.
  specialize (IH (lt + (row_height MARGIN w m (length cs) + MARGIN))%float
                 (lt' + (row_height MARGIN w' m (length cs) + MARGIN))%float).
  rewrite E' in IH. simpl in IH. rewrite IH.
  by destruct (place_rows MARGIN w _ rs).
Qed.

(** What [place_rows] writes on a row: the height of the formula, and for
    every item that height times its aspect ratio. *)
Lemma place_items_placement (h lt left : float) (cs : list cell)
  (k : nat) (p : option placement) (d : ItemData) :
  place_items MARGIN h lt left cs !! k = Some (p, d) →
  ∃ pl, p = Some pl ∧ style_height pl = h
        ∧ style_width pl = (h * aspectRatio d)%float ∧ style_top pl = lt.
Proof.
  revert left k. induction cs as [|[p0 d0] cs IH]; intros left k; simpl; [done|].
  destruct k as [|k]; simpl.
  - intros [= <- <-]. by eexists.
  - apply IH.
Qed.

Lemma place_rows_row (w lt : float) (rs : list (row_meta * list cell))
  (i : nat) (m : row_meta) (cs : list cell) :
  (place_rows MARGIN w lt rs).1 !! i = Some (m, cs) →
  ∃ cs0 lt0, rs !! i = Some (m, cs0)
             ∧ cs = place_items MARGIN (row_height MARGIN w m (length cs0)) lt0 0 cs0.
Proof.
  revert lt i. induction rs as [|[m0 cs0] rs IH]; intros lt i; simpl; [done|].
  destruct (place_rows MARGIN w _ rs) as [out fin] eqn:E. simpl.
  destruct i as [|i]; simpl.
  - intros [= <- <-]. by eexists _, _.
  - intros H. eapply IH. by rewrite E.
Qed.

End LayoutFacts.

Section SectionClaims.

Variable MARGIN : float.

Import SectionElement.

(** C9.  Layout recompute is idempotent.  Calling [set] with a top and a
    width strictly equal ([===]) to the ones the section holds returns the
    section as it is: stored top, width, height and every placement are
    untouched.  And for any section and any arguments, [set(t, w)] followed
    by [set(t, w)] leaves the section that a single [set(t, w)] leaves. *)
Theorem set_idempotent (s : t) (new_top : float) (new_width : jsnum) :
  (strict_eq (top s) (num new_top) = true →
   strict_eq (width s) new_width = true →
   set MARGIN s new_top new_width = s)
  ∧ set MARGIN (set MARGIN s new_top new_width) new_top new_width
    = set MARGIN s new_top new_width.
Proof.
  split.
  - intros Ht Hw. unfold set, strict_neq. rewrite Ht. simpl. by rewrite Hw.
  - pose proof (place_rows_again MARGIN (ToNumber new_width) 0
                  (ToNumber new_width) 0 (rows s)) as A.
    unfold set, strict_neq.
    destruct (strict_eq (top s) (num new_top)) eqn:Ht;
      destruct (strict_eq (width s) new_width) eqn:Hw;
      destruct (place_rows MARGIN (ToNumber new_width) 0 (rows s))
        as [laid fin] eqn:E;
      simpl in *; rewrite ?Ht, ?Hw, ?E; simpl; rewrite ?Ht, ?Hw; simpl;
      try done;
      destruct (PrimFloat.eqb new_top new_top);
      destruct (strict_eq new_width new_width);
      simpl; rewrite ?Hw, ?A, ?E; simpl; rewrite ?A, ?E; try done;
      by destruct (strict_eq new_width new_width).
Qed.

(** C10.  A call of [set] whose width is the one the section holds, and
    whose top is not, moves the section and nothing else: the rows with
    every item's placement, the stored width and height, the height of the
    element, the mount flag and the index are as before; the stored top and
    the element's top become the new top. *)
Theorem set_top_only (s : t) (new_top : float) (new_width : jsnum) :
  strict_eq (width s) new_width = true →
  strict_neq (top s) (num new_top) = true →
  let s' := set MARGIN s new_top new_width in
  rows s' = rows s ∧ width s' = width s ∧ height s' = height s
  ∧ section_height s' = section_height s
  ∧ attached s' = attached s ∧ index s' = index s
  ∧ top s' = num new_top ∧ section_top s' = Some new_top.
Proof.
  intros Hw Ht. unfold set. rewrite Ht. simpl.
  unfold strict_neq. rewrite Hw. simpl. done.
Qed.

(** The row height and the item width of the layout formula, with the
    constant [MARGIN] in the place of the margin: after a [set] that
    changes the width to [w], every row of [n] items, aspect ratio [r] and
    [e] extra margins has the height [(w - (n - 1 + e) * MARGIN) / r] on
    each of its items, and gives each item that height times the item's
    aspect ratio as its width. *)
Lemma set_row_layout (s : t) (new_top : float) (new_width : jsnum)
  (i k : nat) (m : row_meta) (cs : list cell) (p : option placement)
  (d : ItemData) :
  strict_neq (width s) new_width = true →
  rows (set MARGIN s new_top new_width) !! i = Some (m, cs) →
  cs !! k = Some (p, d) →
  let h := ((ToNumber new_width
             - (of_nat (length cs) - 1 + margins_of m) * MARGIN)
            / meta_aspectRatio m)%float in
  ∃ pl, p = Some pl ∧ style_height pl = h
        ∧ style_width pl = (h * aspectRatio d)%float.
Proof.
  intros Hw Hi Hk. unfold set in Hi.
  assert (Hw' : strict_neq
            (width (if strict_neq (top s) (num new_top)
                    then mk (attached s) (num new_top) (width s) (height s)
                           (index s) (Some new_top) (section_height s) (rows s)
                    else s)) new_width = true)
    by (by destruct (strict_neq (top s) (num new_top))).
  rewrite Hw' in Hi.
  destruct (place_rows MARGIN _ _ _) as [laid fin] eqn:E. simpl in Hi.
  assert (Hr : rows (if strict_neq (top s) (num new_top)
                     then mk (attached s) (num new_top) (width s) (height s)
                            (index s) (Some new_top) (section_height s) (rows s)
                     else s) = rows s)
    by (by destruct (strict_neq (top s) (num new_top))).
  rewrite Hr in E.
  pose proof (place_rows_row MARGIN (ToNumber new_width) 0 (rows s) i m cs) as R.
  rewrite E in R. destruct (R Hi) as (cs0 & lt0 & _ & ->).
  rewrite place_items_length.
  apply place_items_placement in Hk as (pl & -> & Hh & Hwd & _).
  exists pl. done.
Qed.

End SectionClaims.

(** ** The tiling pass *)

Section TileFacts.

Import Tile.

Lemma ratio_sum_snoc (cur : list ItemData) (it : ItemData) :
  ratio_sum (cur ++ [it]) = (ratio_sum cur + aspectRatio it)%float.
Proof. unfold ratio_sum. by rewrite fold_left_app. Qed.

Lemma tile_from_tiled (threshold : float) (hasMore : bool)
  (its cur : list ItemData) (sum : float) :
  sum = ratio_sum cur →
  (∀ k : nat, (0 < k ≤ length cur)%nat →
     (threshold <=? ratio_sum (take k cur))%float = false) →
  tiled threshold hasMore cur its (tile_from threshold hasMore cur sum its).
Proof.
  revert cur sum. induction its as [|it rest IH]; intros cur sum Hsum Hopen.
  - simpl. destruct cur as [|c cur'].
    + unfold tiled; simpl; split_and!; try done; intros; simpl in *; lia.
    + destruct hasMore eqn:Hm; unfold tiled; simpl; split_and!; try done.
      * by rewrite !app_nil_r.
      * intros [|i] r Hi; simpl in Hi; [|done]. simplify_eq. simpl.
        split_and!; try done.
        -- intros [?|?]; [lia|done].
        -- intros k Hk. apply Hopen. simpl. lia.
      * by rewrite !app_nil_r.
  - simpl.
    assert (Hs : (sum + aspectRatio it)%float = ratio_sum (cur ++ [it]))
      by (by rewrite ratio_sum_snoc, Hsum).
    assert (Hpre : ∀ k : nat, (0 < k ≤ length cur)%nat →
              (threshold <=? ratio_sum (take k (cur ++ [it])))%float = false).
    { intros k Hk. rewrite take_app_le by lia. by apply Hopen. }
    destruct (threshold <=? sum + aspectRatio it)%float eqn:Hc.
    + specialize (IH [] 0%float eq_refl ltac:(simpl; intros; lia)).
      destruct (tile_from threshold hasMore [] 0 rest) as [rows rem] eqn:E.
      destruct IH as (Hrows & Hrem & Hnone & Hall). simpl in *.
      unfold tiled; simpl; split_and!; try done.
      * intros [|i] r Hi; simpl in Hi.
        { simplify_eq. simpl. split_and!; try done.
          - by destruct cur.
          - intros k Hk. apply Hpre. rewrite length_app in Hk. simpl in Hk.
            lia. }
        destruct (Hrows i r Hi) as (Hr & Ht & Hne & Hmin).
        split_and!; try done.
        intros [?|?]; apply Ht; [left; lia|by right].
      * rewrite <- !app_assoc. simpl. by rewrite Hall.
    + assert (Hopen' : ∀ k : nat, (0 < k ≤ length (cur ++ [it]))%nat →
                (threshold <=? ratio_sum (take k (cur ++ [it])))%float = false).
      { intros k Hk. rewrite length_app in Hk. simpl in Hk.
        destruct (decide (k ≤ length cur)%nat) as [Hle|Hgt].
        - apply Hpre. lia.
        - rewrite take_ge by (rewrite length_app; simpl; lia).
          by rewrite <- Hs. }
      specialize (IH (cur ++ [it]) _ Hs Hopen').
      destruct IH as (Hrows & Hrem & Hnone & Hall).
      unfold tiled; split_and!; try done.
      rewrite Hall, <- app_assoc. done.
Qed.

End TileFacts.

(** Order preservation: the rows' items followed by the remainder are the
    input. *)
Lemma tile_keeps_order (its : list ItemData) (threshold : float) (hasMore : bool) :
  flat_map items (Tile.tile its threshold hasMore).1
  ++ (Tile.tile its threshold hasMore).2 = its.
Proof.
  pose proof (tile_from_tiled threshold hasMore its [] 0%float eq_refl
                ltac:(simpl; intros; lia)) as (_ & _ & _ & H).
  exact H.
Qed.

(** C2.  Threshold satisfaction.  For every input and threshold, the rows
    the tiling pass emits, followed by the remainder it returns, are the
    items it was given, in their order: no item is dropped, doubled or
    moved.  Each row carries as its aspect ratio the running sum of its
    items' aspect ratios, is not empty, and was closed by the first item
    with which that sum reached the threshold.  The sum is at least the
    threshold for every row but possibly the last, and for the last one
    too when more data may come ([hasMore]): in that case a tail that
    stays below the threshold is not emitted but returned as the
    remainder, within which no row could have been closed; and when no
    more data can come the remainder is empty, the tail being the last
    row. *)
Theorem tile_threshold (its : list ItemData) (threshold : float) (hasMore : bool) :
  let rows := (Tile.tile its threshold hasMore).1 in
  let remainder := (Tile.tile its threshold hasMore).2 in
  (∀ (i : nat) (r : RowData), rows !! i = Some r →
     row_aspectRatio r = Tile.ratio_sum (items r)
     ∧ ((S i < length rows)%nat ∨ hasMore = true →
        (threshold <=? row_aspectRatio r)%float = true))
  ∧ (hasMore = true → remainder ≠ [] →
     (threshold <=? Tile.ratio_sum remainder)%float = false)
  ∧ (hasMore = false → remainder = [])
  ∧ flat_map items rows ++ remainder = its
  ∧ (∀ (i : nat) (r : RowData), rows !! i = Some r →
       items r ≠ []
       ∧ ∀ k : nat, (0 < k < length (items r))%nat →
           (threshold <=? Tile.ratio_sum (take k (items r)))%float = false)
  ∧ (hasMore = true →
     ∀ k : nat, (0 < k ≤ length remainder)%nat →
       (threshold <=? Tile.ratio_sum (take k remainder))%float = false).
Proof.
  pose proof (tile_from_tiled threshold hasMore its [] 0%float eq_refl
                ltac:(simpl; intros; lia)) as (H1 & H2 & H3 & H4).
  intros rows remainder. split_and!; try done.
  - intros i r Hi. destruct (H1 i r Hi) as (? & ? & _). done.
  - intros Hm Hne. specialize (H2 Hm (length remainder)).
    rewrite take_ge in H2 by done. apply H2.
    assert (length remainder ≠ 0%nat) by (by intros ?%nil_length_inv).
    split; [lia|reflexivity].
  - intros i r Hi. destruct (H1 i r Hi) as (_ & _ & ? & ?). done.
Qed.

(** ** The controller *)

Section ControllerFacts.

Import Flashlight.

Variable MARGIN : float.
Variable NUM_ROWS_PER_SECTION : nat.

Abbreviation tile := (tile NUM_ROWS_PER_SECTION).
Abbreviation append_section := (append_section MARGIN).
Abbreviation settle := (settle MARGIN NUM_ROWS_PER_SECTION).
Abbreviation resolve := (resolve MARGIN NUM_ROWS_PER_SECTION).
Abbreviation rebuild := (rebuild MARGIN NUM_ROWS_PER_SECTION).
Abbreviation reposition := (reposition MARGIN).
Abbreviation onResize := (onResize MARGIN).
Abbreviation react := (react MARGIN NUM_ROWS_PER_SECTION).
Abbreviation run_events := (run_events MARGIN NUM_ROWS_PER_SECTION).
Abbreviation pushed := (pushed MARGIN).

(** *** The pagination step *)

(** [get] does nothing while a fetch is pending or once the cursor is
    [null]. *)
Lemma get_noop (st : State) :
  loading st = true ∨ currentRequestKey st = KNull → get st = st.
Proof.
  unfold get. intros [-> | ->]; [done|]. simpl. by rewrite orb_true_r.
Qed.

(** Otherwise it raises the flag and calls the pager with the cursor. *)
Lemma get_fetches (st : State) :
  loading st = false → currentRequestKey st ≠ KNull →
  loading (get st) = true
  ∧ outstanding (get st) = outstanding st ++ [currentRequestKey st].
Proof.
  unfold get. intros -> Hk. destruct (currentRequestKey st); done.
Qed.

Lemma flies_refl (st st' : State) :
  loading st' = loading st → outstanding st' = outstanding st → flies st st'.
Proof. by left. Qed.

Lemma flies_get (st st' : State) :
  loading st' = loading st → outstanding st' = outstanding st →
  flies st (get st').
Proof.
  intros Hl Ho. unfold get.
  destruct (loading st') eqn:L; simpl; [left; split; congruence|].
  destruct (is_null (currentRequestKey st')); simpl; [left; split; congruence|].
  right. rewrite <- Hl, <- Ho. eauto.
Qed.

Lemma flies_trans (a b c : State) : flies a b → flies b c → flies a c.
Proof.
  intros [[L1 O1]|(L1 & L1' & k1 & O1)] [[L2 O2]|(L2 & L2' & k2 & O2)].
  - left. by rewrite L2, O2.
  - right. rewrite <- L1, <- O1. eauto.
  - right. rewrite L2, O2. eauto.
  - congruence.
Qed.

Lemma flies_single (st st' : State) :
  single_flight st → flies st st' → single_flight st'.
Proof.
  intros [Hlen Hup] [[L O]|(L & L' & k & O)]; unfold single_flight.
  - by rewrite L, O.
  - destruct (outstanding st) as [|x xs] eqn:E.
    + rewrite O. simpl. done.
    + rewrite Hup in L; done.
Qed.

(** A flag that is up stays up along [flies]. *)
Lemma flies_keeps_up (st st' : State) :
  flies st st' → loading st = true → loading st' = true.
Proof. intros [[L O]|(L & L' & _)] H; congruence. Qed.

Lemma flies_flight (st st' : State) : flight st' = flight st → flies st st'.
Proof. intros [= ? ?]. by left. Qed.

(** *** Tiling and appending *)

(** [tile] writes the ordinals and the items held back, nothing else. *)
Lemma tile_state (st : State) (its : list ItemData) (b : bool) :
  ∃ m n rem,
    (tile st its b).1
    = with_currentRemainder rem (with_nextItemIndex n (with_itemIndexMap m st)).
Proof.
  unfold Flashlight.tile. destruct (Tile.tile _ _ _) as [rows rem].
  destruct (assign_rows _ _) as [m n]. by eexists _, _, _.
Qed.

(** The body of the loop over the new sections throws once it has pushed
    the section: the loop returns only when there is no section to
    append. *)
Lemma forEach_append (b : bool) (secs : list (list RowData)) (st : State) :
  forEach (append_section b) secs st
  = match secs with
    | [] => Ok st
    | rows :: _ => Throw (pushed st rows)
    end.
Proof. by destruct secs. Qed.

Lemma set_mount (s : SectionElement.t) (t : float) (w : jsnum) :
  mount_of (SectionElement.set MARGIN s t w) = mount_of s.
Proof.
  unfold SectionElement.set.
  destruct (strict_neq (SectionElement.top s) (num t)); simpl;
    destruct (strict_neq _ w); simpl; try done;
    by destruct (SectionElement.place_rows _ _ _ _).
Qed.

(** *** Sections of an array *)

Lemma sec_at_Some (l : list SectionElement.t) (k : Z) (s : SectionElement.t) :
  sec_at l k = Some s ↔ 0 ≤ k ∧ l !! Z.to_nat k = Some s.
Proof.
  unfold sec_at. destruct (k <? 0) eqn:E.
  - apply Z.ltb_lt in E. split; [done|]. intros [? _]. lia.
  - apply Z.ltb_ge in E. tauto.
Qed.

Lemma sec_at_range (l : list SectionElement.t) (k : Z) (s : SectionElement.t) :
  sec_at l k = Some s → 0 ≤ k < Z.of_nat (length l).
Proof.
  intros [H0 H]%sec_at_Some. apply lookup_lt_Some in H. lia.
Qed.

Lemma sec_at_is_Some (l : list SectionElement.t) (k : Z) :
  0 ≤ k < Z.of_nat (length l) → ∃ s, sec_at l k = Some s.
Proof.
  intros H. destruct (lookup_lt_is_Some_2 l (Z.to_nat k)) as [s Hs]; [lia|].
  exists s. apply sec_at_Some. split; [lia|done].
Qed.

Lemma sec_at_None (l : list SectionElement.t) (k : Z) :
  sec_at l k = None → k < 0 ∨ Z.of_nat (length l) ≤ k.
Proof.
  unfold sec_at. destruct (k <? 0) eqn:E; [lia|].
  intros H%lookup_ge_None. apply Z.ltb_ge in E. lia.
Qed.

(** *** What holds of the sections along a run *)

Lemma wf_same (st st' : State) :
  sections st' = sections st → shownSections st' = shownSections st →
  wf st → wf st'.
Proof. unfold wf. by intros -> ->. Qed.

Lemma wf_empty (st : State) : sections st = [] → shownSections st = [] → wf st.
Proof.
  intros Hs Hn. unfold wf. rewrite Hs, Hn. split_and!; [|done|constructor].
  intros i s H. by rewrite lookup_nil in H.
Qed.

Lemma wf_pushed (st : State) (rows : list RowData) : wf st → wf (pushed st rows).
Proof.
  intros (Hi & Hs & Ha).
  pose proof (set_mount (SectionElement.new (Z.of_nat (length (sections st))) rows)
                (height st) (width st)) as [= Ei Ea].
  split_and!; simpl.
  - intros i s [H|[Hlen H]]%lookup_app_Some; [by apply Hi|].
    destruct (i - length (sections st))%nat as [|n] eqn:En; [|done].
    simpl in H. injection H as <-. rewrite Ei. simpl. f_equal. lia.
  - exact Hs.
  - apply Forall_app. split; [exact Ha|]. by apply Forall_singleton.
Qed.

Lemma wf_mounts (st st' : State) :
  mount_of <$> sections st' = mount_of <$> sections st →
  shownSections st' = shownSections st →
  wf st → wf st'.
Proof.
  intros Hm Hn (Hi & Hs & Ha).
  assert (Hlook : ∀ (i : nat) s', sections st' !! i = Some s' →
            ∃ s, sections st !! i = Some s ∧ mount_of s = mount_of s').
  { intros i s' H. apply (f_equal (fmap mount_of)) in H.
    rewrite <- list_lookup_fmap, Hm, list_lookup_fmap in H.
    destruct (sections st !! i) as [s|]; [|done]. simpl in H.
    exists s. split; [done|]. congruence. }
  split_and!.
  - intros i s' H. destruct (Hlook i s' H) as (s & Hs' & [= E _]).
    rewrite <- E. by apply Hi.
  - by rewrite Hn.
  - apply Forall_lookup. intros i s' H.
    destruct (Hlook i s' H) as (s & Hs' & [= _ E]). rewrite <- E.
    by apply (Forall_lookup_1 _ _ _ _ Ha Hs').
Qed.

Lemma get_wf (st : State) : wf st → wf (get st).
Proof. unfold get. by destruct (_ || _). Qed.

Lemma wf_index (st : State) (k : Z) (s : SectionElement.t) :
  wf st → sec_at (sections st) k = Some s → SectionElement.index s = k.
Proof.
  intros (Hi & _) [H0 H]%sec_at_Some. rewrite (Hi _ _ H). lia.
Qed.

Lemma wf_unmounted (st : State) (k : Z) (s : SectionElement.t) :
  wf st → sec_at (sections st) k = Some s → SectionElement.attached s = false.
Proof.
  intros (_ & _ & Ha) [H0 H]%sec_at_Some.
  by apply (Forall_lookup_1 _ _ _ _ Ha H).
Qed.

(** *** The fetch handler *)

(** How the handler ends: in the state [st3] it has reached when the loop
    over the new sections [secs'] begins, it returns when there is none,
    and throws, the first one pushed, when there is one. *)
Lemma settle_outcome (st : State) (r : Response) :
  ∃ st3 secs',
    sections st3 = sections st
    ∧ shownSections st3 = shownSections st
    ∧ height st3 = height st
    ∧ currentRequestKey st3 = nextRequestKey r
    ∧ (loading st = true → flight st3 = flight st)
    ∧ settle st r
      = match secs' with
        | [] => Ok (with_loading false
                      (with_currentRequestKey (nextRequestKey r) st3), 0%nat)
        | rows :: _ => Throw (pushed st3 rows)
        end.
Proof.
  unfold Flashlight.settle.
  destruct (tile_state (with_currentRequestKey (nextRequestKey r) st)
              (currentRemainder (with_currentRequestKey (nextRequestKey r) st)
               ++ resp_items r) true) as (m & n & rem & E).
  destruct (tile _ _ true) as [st2 secs]. simpl in E. subst st2.
  set (st2 := with_currentRemainder rem _).
  assert (G : ∀ (c : bool) x,
            sections x = sections st → shownSections x = shownSections st →
            height x = height st → currentRequestKey x = nextRequestKey r →
            flight x = flight st →
            let y := if c then get x else x in
            sections y = sections st ∧ shownSections y = shownSections st
            ∧ height y = height st ∧ currentRequestKey y = nextRequestKey r
            ∧ (loading st = true → flight y = flight st)).
  { intros c x H1 H2 H3 H4 H5. destruct c; simpl; [|done]. unfold get.
    destruct (loading x || is_null (currentRequestKey x)) eqn:El; [done|].
    split_and!; try done. intros Hl. injection H5 as H5 _.
    rewrite H5, Hl in El. done. }
  destruct (last secs) as [lastSection|]; simpl.
  - destruct (truthy (nextRequestKey r) && _); simpl.
    + destruct (G (length (removelast secs) =? 0)%nat
                  (with_currentRowRemainder lastSection st2)
                  eq_refl eq_refl eq_refl eq_refl eq_refl)
        as (G1 & G2 & G3 & G4 & G5).
      eexists _, (removelast secs).
      split_and!; [exact G1|exact G2|exact G3|exact G4|exact G5|].
      rewrite forEach_append. by destruct (removelast secs).
    + exists (with_currentRowRemainder [] st2), secs. split_and!; [done..|].
      rewrite forEach_append. by destruct secs.
  - exists (with_currentRowRemainder [] st2), secs. split_and!; [done..|].
    rewrite forEach_append. by destruct secs.
Qed.

Lemma resolve_outcome (st : State) (r : Response) :
  ∃ st3 secs',
    sections st3 = sections st
    ∧ shownSections st3 = shownSections st
    ∧ height st3 = height st
    ∧ currentRequestKey st3 = nextRequestKey r
    ∧ (loading st = true → flight st3 = flight st)
    ∧ resolve st r
      = match secs' with
        | [] =>
            let st' := with_loading false
                         (with_currentRequestKey (nextRequestKey r) st3) in
            Ok (if wants_more st' 0 (nextRequestKey r) then get st' else st')
        | rows :: _ => Throw (pushed st3 rows)
        end.
Proof.
  destruct (settle_outcome st r) as (st3 & secs' & H1 & H2 & H3 & H4 & H5 & E).
  exists st3, secs'. split_and!; try done.
  unfold Flashlight.resolve. rewrite E. by destruct secs'.
Qed.

Lemma resolve_wf (st : State) (r : Response) :
  wf st → wf (after st (resolve st r)).
Proof.
  intros Hwf.
  destruct (resolve_outcome st r) as (st3 & secs' & H1 & H2 & _ & _ & _ & ->).
  assert (W : wf st3) by (by apply (wf_same st)).
  destruct secs' as [|rows secs']; simpl.
  - destruct (wants_more _ _ _); [apply get_wf|]; by apply (wf_same st3).
  - by apply wf_pushed.
Qed.

(** *** The rebuild *)

(** How the rebuild ends: it throws on the last section it does not
    have, or runs the loop over the new sections from a state with no
    section. *)
Lemma rebuild_outcome (st : State) :
  (rebuild st = Throw (tile st (rebuild_items st) false).1
   ∧ truthy (currentRequestKey st) = true
   ∧ (tile st (rebuild_items st) false).2 = [])
  ∨ ∃ st3 secs',
      sections st3 = [] ∧ shownSections st3 = [] ∧ height st3 = 0%float
      ∧ flies st st3
      ∧ rebuild st
        = match secs' with
          | [] => Ok st3
          | rows :: _ => Throw (pushed st3 rows)
          end.
Proof.
  unfold Flashlight.rebuild.
  destruct (tile_state st (rebuild_items st) false) as (m & n & rem & E).
  destruct (tile _ _ false) as [st1 secs]. simpl in E. subst st1. simpl.
  assert (A : ∀ st2 secs', flies st st2 →
            ∃ st3 secs'',
              sections st3 = [] ∧ shownSections st3 = [] ∧ height st3 = 0%float
              ∧ flies st st3
              ∧ forEach (append_section false) secs'
                  (with_clean [] (with_shownSections []
                     (with_sections [] (with_height 0%float st2))))
                = match secs'' with
                  | [] => Ok st3
                  | rows :: _ => Throw (pushed st3 rows)
                  end).
  { intros st2 secs' F.
    exists (with_clean [] (with_shownSections []
              (with_sections [] (with_height 0%float st2)))), secs'.
    split_and!; [done..|exact F|apply forEach_append]. }
  destruct (truthy (currentRequestKey st)) eqn:Ek; simpl.
  - destruct (last secs) as [lastSection|] eqn:El; simpl.
    + right. destruct (negb _); simpl; apply A.
      * destruct (length (removelast secs) =? 0)%nat.
        -- by apply flies_get.
        -- by apply flies_refl.
      * by apply flies_refl.
    + left. split_and!; try done. by apply last_None.
  - right. apply A. by apply flies_refl.
Qed.

Lemma rebuild_wf (st : State) : wf st → wf (after st (rebuild st)).
Proof.
  intros Hwf.
  destruct (rebuild_outcome st) as [(-> & _)|(st3 & secs' & H1 & H2 & _ & _ & ->)].
  - simpl. destruct (tile_state st (rebuild_items st) false) as (m & n & rem & ->).
    exact Hwf.
  - assert (W : wf st3) by (by apply wf_empty).
    destruct secs'; simpl; [done|by apply wf_pushed].
Qed.

(** *** Resizes *)

Lemma relayout_mounts (w : float) (l : list SectionElement.t)
  (acc : list SectionElement.t * float) :
  mount_of <$> (fold_left (relayout MARGIN w) l acc).1
  = (mount_of <$> acc.1) ++ (mount_of <$> l).
Proof.
  revert acc. induction l as [|s l IH]; intros acc; simpl.
  - by rewrite app_nil_r.
  - rewrite IH. simpl. rewrite fmap_app. simpl. rewrite set_mount.
    by rewrite <- app_assoc.
Qed.

(** A resize that changes the width throws once it has laid the sections
    out. *)
Lemma reposition_throws (st : State) (w : float) :
  strict_eq (num w) (width st) = false →
  reposition st w
  = Throw (with_sections
             (fold_left (relayout MARGIN w) (sections st) ([], 0%float)).1
             (with_width (num w) st)).
Proof.
  intros E. unfold Flashlight.reposition. rewrite E. simpl.
  by destruct (sec_at _ _).
Qed.

Lemma onResize_wf (st : State) (w : float) : wf st → wf (after st (onResize st w)).
Proof.
  intros Hwf. unfold Flashlight.onResize.
  destruct (observed st); [|exact Hwf].
  destruct (strict_eq (num w) (width st)) eqn:E.
  - unfold Flashlight.reposition. rewrite E. exact Hwf.
  - rewrite reposition_throws by done. simpl.
    eapply wf_mounts; [| |exact Hwf]; [|done].
    simpl. by rewrite relayout_mounts.
Qed.

Lemma onResize_flight (st : State) (w : float) :
  flight (after st (onResize st w)) = flight st.
Proof.
  unfold Flashlight.onResize.
  destruct (observed st); [|done].
  destruct (strict_eq (num w) (width st)) eqn:E.
  - unfold Flashlight.reposition. by rewrite E.
  - by rewrite reposition_throws.
Qed.

(** *** The observer's callback on unmounted sections *)

(** No section being mounted, [showSection] throws for an index that
    names a section and returns for any other. *)
Lemma showSection_wf (st : State) (i : Z) :
  wf st →
  showSection st i
  = if decide (0 ≤ i < Z.of_nat (length (sections st))) then Throw st else Ok st.
Proof.
  intros Hwf. unfold showSection.
  destruct (sec_at (sections st) i) as [s|] eqn:E.
  - rewrite decide_True by (by eapply sec_at_range).
    unfold SectionElement.isShown, SectionElement.show_at.
    by rewrite (wf_unmounted _ _ _ Hwf E).
  - rewrite decide_False; [done|]. apply sec_at_None in E. lia.
Qed.

Lemma hideSection_wf (st : State) (i : Z) : wf st → hideSection st i = st.
Proof.
  intros Hwf. unfold hideSection.
  destruct (sec_at (sections st) i) as [s|] eqn:E; [|done].
  unfold SectionElement.isShown. by rewrite (wf_unmounted _ _ _ Hwf E).
Qed.

Lemma each_entry_wf (st : State) (scrollTop : float) (down : bool)
  (entries : list entry) :
  wf st →
  each_entry st scrollTop down entries = Ok st
  ∨ each_entry st scrollTop down entries = Throw st.
Proof.
  intros Hwf. induction entries as [|e rest IH]; simpl; [by left|].
  destruct (sec_at (sections st) (target_index e)) as [section|] eqn:Hs;
    [|by right].
  rewrite (wf_index _ _ _ Hwf Hs).
  destruct (truthy_num (intersectionRatio e)).
  - rewrite (showSection_wf _ _ Hwf).
    rewrite decide_True by (by eapply sec_at_range). by right.
  - simpl. destruct Hwf as (_ & Hn & _). rewrite Hn. exact IH.
Qed.

(** The callback then returns with the scroll offset put aside, or throws
    with nothing changed. *)
Lemma onIntersect_cases (st : State) (scrollTop : float) (entries : list entry) :
  wf st →
  onIntersect st scrollTop entries = Ok (with_lastScrollTop scrollTop st)
  ∨ onIntersect st scrollTop entries = Throw st.
Proof.
  intros Hwf. unfold onIntersect. destruct (hosted st); [|by right].
  destruct (each_entry_wf st scrollTop (lastScrollTop st <=? scrollTop)%float
              entries Hwf) as [-> | ->]; [by left|by right].
Qed.

(** *** Every state of a run *)

Lemma react_wf (st : State) (ev : event) : wf st → wf (react st ev).
Proof.
  intros Hwf. destruct ev as [w h|w h|o| |r| |scrollTop entries|w]; simpl.
  - exact Hwf.
  - unfold reset. destruct (hosted st); simpl.
    + apply get_wf. by apply wf_empty.
    + by apply wf_empty.
  - exact Hwf.
  - by apply rebuild_wf.
  - destruct (outstanding st); [done|]. by apply resolve_wf.
  - by destruct (outstanding st).
  - by destruct (onIntersect_cases st scrollTop entries Hwf) as [-> | ->].
  - by apply onResize_wf.
Qed.

Lemma run_wf (cfg : FlashlightConfig) (evs : list event) : wf (run_events cfg evs).
Proof.
  unfold Flashlight.run_events.
  assert (H : wf (construct cfg)).
  { unfold construct.
    apply (get_wf (getEmptyState cfg false 0%float false false [])).
    by apply wf_empty. }
  revert H. generalize (construct cfg).
  induction evs as [|ev evs IH]; intros st H; simpl; [done|].
  apply IH. by apply react_wf.
Qed.

(** The sections of every state a controller reaches carry the indices
    0, 1, 2, ... in this order: an index is given once, at the append, and
    is the position of the section. *)
Theorem section_indices_in_order (cfg : FlashlightConfig) (evs : list event) :
  let st := run_events cfg evs in
  SectionElement.index <$> sections st
  = Z.of_nat <$> seq 0 (length (sections st)).
Proof.
  intros st. destruct (run_wf cfg evs) as [Hi _]. fold st in Hi.
  apply list_eq. intros i. rewrite !list_lookup_fmap.
  destruct (sections st !! i) as [s|] eqn:E; simpl.
  - rewrite (Hi i s E).
    rewrite lookup_seq_lt by (by apply lookup_lt_Some in E). done.
  - rewrite lookup_seq_ge; [done|]. by apply lookup_ge_None.
Qed.

(** *** One fetch at a time *)

Lemma reset_flies (st : State) (w h : float) :
  flies st (after st (reset st w h)).
Proof.
  unfold reset. destruct (hosted st); simpl.
  - by apply flies_get.
  - by apply flies_refl.
Qed.

Lemma rebuild_flies (st : State) : flies st (after st (rebuild st)).
Proof.
  destruct (rebuild_outcome st) as [(-> & _)|(st3 & secs' & _ & _ & _ & F & ->)].
  - simpl. destruct (tile_state st (rebuild_items st) false) as (m & n & rem & ->).
    by apply flies_refl.
  - destruct secs'; simpl; [done|].
    eapply flies_trans; [exact F|]. by apply flies_refl.
Qed.

Lemma onIntersect_flight (st : State) (scrollTop : float) (entries : list entry) :
  wf st → flight (after st (onIntersect st scrollTop entries)) = flight st.
Proof.
  intros Hwf.
  by destruct (onIntersect_cases st scrollTop entries Hwf) as [-> | ->].
Qed.

(** The handler of the only pending call: it ends with the flag down and
    at most the call its last [get()] made, or throws with the flag up and
    nothing pending. *)
Lemma resolve_single (st : State) (r : Response) :
  loading st = true → outstanding st = [] →
  single_flight (after st (resolve st r)).
Proof.
  intros Hl Ho.
  destruct (resolve_outcome st r) as (st3 & secs' & _ & _ & _ & _ & H5 & ->).
  injection (H5 Hl) as L O. rewrite Ho in O.
  destruct secs' as [|rows secs']; simpl.
  - assert (single_flight
              (with_loading false
                 (with_currentRequestKey (nextRequestKey r) st3)))
      by (split; simpl; rewrite O; simpl; [lia|done]).
    destruct (wants_more _ _ _); [|done].
    eapply flies_single; [done|]. by apply flies_get.
  - split; simpl; rewrite O; simpl; [lia|done].
Qed.

Lemma react_single (st : State) (ev : event) :
  wf st → single_flight st → single_flight (react st ev).
Proof.
  intros Hwf Hs. destruct ev as [w h|w h|o| |r| |scrollTop entries|w]; simpl.
  - exact Hs.
  - eapply flies_single; [exact Hs|]. apply reset_flies.
  - exact Hs.
  - eapply flies_single; [exact Hs|]. apply rebuild_flies.
  - destruct (outstanding st) as [|k pending] eqn:E; [done|].
    destruct Hs as [Hlen Hup]. rewrite E in Hlen, Hup.
    destruct pending; [|simpl in Hlen; lia].
    apply resolve_single; [|done]. by apply Hup.
  - destruct (outstanding st) as [|k pending] eqn:E; [done|].
    destruct Hs as [Hlen Hup]. rewrite E in Hlen, Hup.
    destruct pending; [|simpl in Hlen; lia].
    split; simpl; [lia|done].
  - eapply flies_single; [exact Hs|]. by apply flies_flight, onIntersect_flight.
  - eapply flies_single; [exact Hs|]. apply flies_flight, onResize_flight.
Qed.

Lemma run_single (cfg : FlashlightConfig) (evs : list event) :
  single_flight (run_events cfg evs).
Proof.
  unfold Flashlight.run_events.
  assert (H : wf (construct cfg) ∧ single_flight (construct cfg)).
  { split.
    - apply (run_wf cfg []).
    - unfold construct.
      eapply (flies_single (getEmptyState cfg false 0%float false false [])).
      + split; simpl; [lia|done].
      + by apply flies_get. }
  revert H. generalize (construct cfg).
  induction evs as [|ev evs IH]; intros st [W H]; simpl; [done|].
  apply IH. split; [by apply react_wf|by apply react_single].
Qed.

(** Only the handler of a pending call takes the flag down. *)
Lemma react_keeps_flag (st : State) (ev : event) :
  wf st → loading st = true → loading (react st ev) = false →
  ∃ r k pending, ev = EResolve r ∧ outstanding st = k :: pending.
Proof.
  intros Hwf Hl Hdown.
  assert (A : ∀ st', flies st st' → loading st' = false → False).
  { intros st' F H. apply (flies_keeps_up _ _ F) in Hl. congruence. }
  destruct ev as [w h|w h|o| |r| |scrollTop entries|w]; simpl in Hdown.
  - congruence.
  - exfalso. eapply A; [|exact Hdown]. apply reset_flies.
  - congruence.
  - exfalso. eapply A; [|exact Hdown]. apply rebuild_flies.
  - destruct (outstanding st) as [|k pending] eqn:E; [congruence|]. eauto.
  - destruct (outstanding st); simpl in Hdown; congruence.
  - exfalso. eapply A; [|exact Hdown]. by apply flies_flight, onIntersect_flight.
  - exfalso. eapply A; [|exact Hdown]. apply flies_flight, onResize_flight.
Qed.

(** *** Properties of the runs of the controller *)

(** C1.  Single-flight pagination.  In every state a controller reaches,
    by any sequence of events, at most one call to the pager is pending,
    and the loading flag is up while one is; with the flag up, [get()] is
    a no-op, so that it makes no second call; and the only event that
    takes the flag down is the response to the pending call. *)
Theorem single_flight_pagination (cfg : FlashlightConfig) (evs : list event) :
  let st := run_events cfg evs in
  (length (outstanding st) ≤ 1)%nat
  ∧ (outstanding st ≠ [] → loading st = true)
  ∧ (loading st = true → get st = st)
  ∧ (∀ ev, loading st = true → loading (react st ev) = false →
       ∃ r k pending, ev = EResolve r ∧ outstanding st = k :: pending).
Proof.
  intros st. destruct (run_single cfg evs) as [Hlen Hup].
  split_and!; try done.
  - intros Hl. apply get_noop. by left.
  - intros ev. apply react_keeps_flag. apply run_wf.
Qed.

(** *** The items a controller holds *)

Lemma getItems_new (i : Z) (rows : list RowData) :
  SectionElement.getItems (SectionElement.new i rows) = flat_map items rows.
Proof.
  unfold SectionElement.getItems. simpl.
  induction rows as [|r rows IH]; simpl; [done|]. rewrite IH. f_equal.
  induction (items r) as [|d ds IHd]; simpl; [done|]. by rewrite IHd.
Qed.

Lemma place_items_data (h lt left : float) (cs : list SectionElement.cell) :
  map snd (SectionElement.place_items MARGIN h lt left cs) = map snd cs.
Proof.
  revert left. induction cs as [|[p d] cs IH]; intros left; simpl; [done|].
  by rewrite IH.
Qed.

Lemma place_rows_data (w lt : float)
  (rs : list (SectionElement.row_meta * list SectionElement.cell)) :
  flat_map (fun r => map snd (snd r)) (SectionElement.place_rows MARGIN w lt rs).1
  = flat_map (fun r => map snd (snd r)) rs.
Proof.
  revert lt. induction rs as [|[m cs] rs IH]; intros lt; simpl; [done|].
  specialize (IH (lt + (SectionElement.row_height MARGIN w m (length cs) + MARGIN))%float).
  destruct (SectionElement.place_rows MARGIN w _ rs) as [out fin]. simpl in *.
  by rewrite IH, place_items_data.
Qed.

Lemma getItems_set (s : SectionElement.t) (t : float) (w : jsnum) :
  SectionElement.getItems (SectionElement.set MARGIN s t w)
  = SectionElement.getItems s.
Proof.
  unfold SectionElement.set, SectionElement.getItems.
  destruct (strict_neq (SectionElement.top s) (num t)); simpl;
    destruct (strict_neq _ w); simpl; try done.
  - pose proof (place_rows_data (ToNumber w) 0 (SectionElement.rows s)) as H.
    by destruct (SectionElement.place_rows _ _ _ _).
  - pose proof (place_rows_data (ToNumber w) 0 (SectionElement.rows s)) as H.
    by destruct (SectionElement.place_rows _ _ _ _).
Qed.

Lemma splice_all_concat (c : nat) (rows : list RowData) :
  (length rows ≤ c * NUM_ROWS_PER_SECTION)%nat →
  concat (splice_all NUM_ROWS_PER_SECTION c rows) = rows.
Proof.
  revert rows. induction c as [|c IH]; intros rows H; simpl.
  - destruct rows; [done|simpl in H; lia].
  - rewrite IH; [by rewrite take_drop|]. rewrite length_drop. lia.
Qed.

Lemma section_count_enough (n : nat) :
  (0 < NUM_ROWS_PER_SECTION)%nat →
  (n ≤ section_count NUM_ROWS_PER_SECTION n * NUM_ROWS_PER_SECTION)%nat.
Proof.
  intros H. unfold section_count.
  pose proof (Nat.mul_succ_div_gt (n + NUM_ROWS_PER_SECTION - 1)
                NUM_ROWS_PER_SECTION ltac:(lia)). lia.
Qed.

Lemma flat_map_concat (l : list (list RowData)) :
  flat_map (flat_map items) l = flat_map items (concat l).
Proof.
  induction l as [|x l IH]; simpl; [done|]. by rewrite flat_map_app, IH.
Qed.

Lemma last_removelast (l : list (list RowData)) (x : list RowData) :
  last l = Some x → removelast l ++ [x] = l.
Proof.
  intros [l' ->]%last_Some. by rewrite removelast_last.
Qed.

Lemma section_count_tight (n : nat) :
  (0 < NUM_ROWS_PER_SECTION)%nat →
  (0 < section_count NUM_ROWS_PER_SECTION n)%nat →
  ((section_count NUM_ROWS_PER_SECTION n - 1) * NUM_ROWS_PER_SECTION < n)%nat.
Proof.
  intros HN. unfold section_count.
  pose proof (Nat.Div0.mul_div_le (n + NUM_ROWS_PER_SECTION - 1)
                NUM_ROWS_PER_SECTION).
  nia.
Qed.

Lemma section_count_zero (n : nat) :
  (0 < NUM_ROWS_PER_SECTION)%nat →
  section_count NUM_ROWS_PER_SECTION n = 0%nat ↔ n = 0%nat.
Proof.
  intros HN. split.
  - intros E. pose proof (section_count_enough n HN) as H.
    rewrite E in H. lia.
  - intros ->. unfold section_count. apply Nat.div_small. lia.
Qed.

Lemma tile_items (st : State) (its : list ItemData) (b : bool) :
  (0 < NUM_ROWS_PER_SECTION)%nat →
  flat_map (flat_map items) (tile st its b).2 ++ currentRemainder (tile st its b).1
  = (if b then flat_map items (currentRowRemainder st) else []) ++ its
  ∧ currentRowRemainder (tile st its b).1 = currentRowRemainder st.
Proof.
  intros HN. unfold Flashlight.tile.
  pose proof (tile_keeps_order its (rowAspectRatioThreshold (options st))
                (truthy (currentRequestKey st))) as Hord.
  destruct (Tile.tile _ _ _) as [rows rem]. simpl in Hord.
  destruct (assign_rows _ _) as [m n]. simpl. split; [|done].
  rewrite flat_map_concat, splice_all_concat by (by apply section_count_enough).
  destruct b; rewrite ?flat_map_app, <- ?app_assoc; by rewrite Hord.
Qed.

Lemma get_all_items (st : State) : all_items (get st) = all_items st.
Proof. unfold get. by destruct (_ || _). Qed.


Lemma get_sections (st : State) : sections (get st) = sections st.
Proof. unfold get. by destruct (_ || _). Qed.

Lemma get_currentRemainder (st : State) :
  currentRemainder (get st) = currentRemainder st.
Proof. unfold get. by destruct (_ || _). Qed.

(** A handler that returns has appended no section, and holds what the
    controller held followed by the items of the response. *)
Lemma settle_items (st : State) (r : Response) (st' : State) (n : nat) :
  (0 < NUM_ROWS_PER_SECTION)%nat →
  settle st r = Ok (st', n) →
  sections st' = sections st
  ∧ all_items st' = all_items st ++ resp_items r.
Proof.
  intros HN. unfold Flashlight.settle.
  pose proof (tile_items (with_currentRequestKey (nextRequestKey r) st)
                (currentRemainder (with_currentRequestKey (nextRequestKey r) st)
                 ++ resp_items r) true HN) as [T1 T2].
  destruct (tile_state (with_currentRequestKey (nextRequestKey r) st)
              (currentRemainder (with_currentRequestKey (nextRequestKey r) st)
               ++ resp_items r) true) as (m & k & rem & E).
  destruct (tile _ _ true) as [st2 secs]. simpl in T1, T2, E.
  assert (A : ∀ st3 secs' held,
            sections st3 = sections st →
            currentRemainder st3 = currentRemainder st2 →
            currentRowRemainder st3 = held →
            flat_map (flat_map items) secs' ++ flat_map items held
            = flat_map (flat_map items) secs →
            forEach (append_section true) secs' st3
            ≫= (fun st4 =>
                  Ok (with_loading false
                        (with_currentRequestKey (nextRequestKey r) st4),
                      length secs')) = Ok (st', n) →
            sections st' = sections st
            ∧ all_items st' = all_items st ++ resp_items r).
  { intros st3 secs' held H1 H2 H3 H4. rewrite forEach_append.
    destruct secs' as [|rows secs']; simpl; [|done]. intros [= <- <-].
    split; [exact H1|]. unfold all_items. simpl. simpl in H4.
    rewrite H1, H2, H3, H4, T1. by rewrite <- !app_assoc. }
  destruct (last secs) as [ls|] eqn:El; simpl.
  - destruct (truthy (nextRequestKey r) && _); simpl.
    + apply (A _ _ ls).
      * destruct (length (removelast secs) =? 0)%nat; [|by subst st2].
        rewrite get_sections. by subst st2.
      * destruct (length (removelast secs) =? 0)%nat; [|done].
        unfold get. by destruct (_ || _).
      * destruct (length (removelast secs) =? 0)%nat; [|done].
        unfold get. by destruct (_ || _).
      * transitivity (flat_map (flat_map items) (removelast secs ++ [ls])).
        -- rewrite flat_map_app. simpl. by rewrite app_nil_r.
        -- by rewrite (last_removelast _ _ El).
    + apply (A _ _ []); [by subst st2|done..|]. simpl. by rewrite app_nil_r.
  - apply (A _ _ []); [by subst st2|done..|]. simpl. by rewrite app_nil_r.
Qed.

Lemma resolve_items (st : State) (r : Response) (st' : State) :
  (0 < NUM_ROWS_PER_SECTION)%nat →
  resolve st r = Ok st' →
  sections st' = sections st
  ∧ all_items st' = all_items st ++ resp_items r.
Proof.
  intros HN. unfold Flashlight.resolve.
  destruct (settle st r) as [[st1 n]|?|] eqn:E; simpl; [|done..].
  destruct (settle_items st r st1 n HN E) as [S I]. intros [= <-].
  destruct (wants_more _ _ _); [|done].
  by rewrite get_sections, get_all_items.
Qed.


(** *** What a rebuild keeps *)

(** A rebuild that returns holds the items of the sections and of the rows
    held back that it started from, in their order.  The items held back
    ([currentRemainder]) are not among the items it tiles. *)
Lemma rebuild_items_kept (st st' : State) :
  (0 < NUM_ROWS_PER_SECTION)%nat →
  rebuild st = Ok st' →
  all_items st' = rebuild_items st.
Proof.
  intros HN. unfold Flashlight.rebuild, Flashlight.tile.
  pose proof (tile_keeps_order (rebuild_items st)
                (rowAspectRatioThreshold (options st))
                (truthy (currentRequestKey st))) as Hord.
  destruct (Tile.tile _ _ _) as [rows rem]. simpl in Hord.
  destruct (assign_rows _ _) as [m n]. simpl.
  set (secs := splice_all NUM_ROWS_PER_SECTION _ rows).
  assert (Hsecs : flat_map (flat_map items) secs = flat_map items rows).
  { rewrite flat_map_concat. subst secs.
    rewrite splice_all_concat; [done|]. by apply section_count_enough. }
  assert (A : ∀ st2 secs' held,
            currentRemainder st2 = rem → currentRowRemainder st2 = held →
            flat_map (flat_map items) secs' ++ flat_map items held
            = flat_map items rows →
            forEach (append_section false) secs'
              (with_clean [] (with_shownSections []
                 (with_sections [] (with_height 0%float st2)))) = Ok st' →
            all_items st' = rebuild_items st).
  { intros st2 secs' held H1 H2 H3. rewrite forEach_append.
    destruct secs' as [|x secs']; [|done]. intros [= <-].
    unfold all_items. simpl. simpl in H3. by rewrite H1, H2, H3. }
  destruct (truthy (currentRequestKey st)); simpl.
  - destruct (last secs) as [ls|] eqn:El; [|done].
    destruct (negb _); simpl.
    + apply (A _ _ ls).
      * by destruct (length (removelast secs) =? 0)%nat;
          rewrite ?get_currentRemainder.
      * destruct (length (removelast secs) =? 0)%nat; [|done].
        unfold get. by destruct (_ || _).
      * transitivity (flat_map (flat_map items) (removelast secs ++ [ls])).
        -- rewrite flat_map_app. simpl. by rewrite app_nil_r.
        -- by rewrite (last_removelast _ _ El).
    + apply (A _ _ []); [done..|]. simpl. by rewrite app_nil_r.
  - apply (A _ _ []); [done..|]. simpl. by rewrite app_nil_r.
Qed.

(** The margin option does not reach the layout: the section a controller
    pushes is the same whatever [options.margin] is. *)
Lemma append_section_ignores_margin (b : bool) (st : State)
  (rows : list RowData) (m : float) :
  sections (after st
              (append_section b
                 (with_options {| margin := m;
                                  rowAspectRatioThreshold :=
                                    rowAspectRatioThreshold (options st) |} st)
                 rows))
  = sections (after st (append_section b st rows)).
Proof. done. Qed.

(** *** Mounting and layout of a section *)


Lemma call_keeps (s : SectionElement.t) (c : section_call) :
  SectionElement.getItems (call MARGIN s c) = SectionElement.getItems s
  ∧ SectionElement.index (call MARGIN s c) = SectionElement.index s
  ∧ map fst (SectionElement.rows (call MARGIN s c))
    = map fst (SectionElement.rows s).
Proof.
  destruct c as [t w| |]; simpl.
  - split; [apply getItems_set|].
    split; [exact (f_equal fst (set_mount s t w))|].
    unfold SectionElement.set.
    assert (P : ∀ lt rs,
              map fst (SectionElement.place_rows MARGIN (ToNumber w) lt rs).1
              = map fst rs).
    { intros lt rs. revert lt.
      induction rs as [|[m cs] rs IH]; intros lt; simpl; [done|].
      specialize (IH (lt + (SectionElement.row_height MARGIN (ToNumber w) m
                              (length cs) + MARGIN))%float).
      destruct (SectionElement.place_rows MARGIN _ _ rs) as [out fin].
      simpl in *. by rewrite IH. }
    destruct (strict_neq (SectionElement.top s) (num t)); simpl;
      destruct (strict_neq _ w); simpl; try done.
    + specialize (P 0%float (SectionElement.rows s)).
      by destruct (SectionElement.place_rows _ _ _ _).
    + specialize (P 0%float (SectionElement.rows s)).
      by destruct (SectionElement.place_rows _ _ _ _).
  - unfold SectionElement.show. by destruct (SectionElement.attached s).
  - unfold SectionElement.hide. by destruct (SectionElement.attached s).
Qed.

(** A section keeps what it was built with.  Whatever calls of [set],
    [show] and [hide] a section has had since its construction, in any
    order and with any arguments, [getItems] returns the items of the rows
    it was built from, in their order, its index is the one it was given,
    and its rows carry the aspect ratios and extra margins they came
    with. *)
Theorem section_keeps_items (i : Z) (rs : list RowData) (calls : list section_call) :
  let s := fold_left (call MARGIN) calls (SectionElement.new i rs) in
  SectionElement.getItems s = flat_map items rs
  ∧ SectionElement.index s = i
  ∧ map fst (SectionElement.rows s)
    = map (fun r => SectionElement.mkMeta (row_aspectRatio r) (extraMargins r)) rs.
Proof.
  simpl.
  assert (G : ∀ s0,
            SectionElement.getItems (fold_left (call MARGIN) calls s0)
            = SectionElement.getItems s0
            ∧ SectionElement.index (fold_left (call MARGIN) calls s0)
              = SectionElement.index s0
            ∧ map fst (SectionElement.rows (fold_left (call MARGIN) calls s0))
              = map fst (SectionElement.rows s0)).
  { induction calls as [|c calls IH]; intros s0; simpl; [done|].
    destruct (IH (call MARGIN s0 c)) as (-> & -> & ->). apply call_keeps. }
  destruct (G (SectionElement.new i rs)) as (-> & -> & ->).
  split; [apply getItems_new|]. split; [done|].
  simpl. by rewrite map_map.
Qed.

(** *** Showing a section through the controller *)

(** [showSection] never mounts.  In every state a controller reaches, no
    section is mounted and none is recorded as shown; [showSection]
    throws for every index that names a section, its call of [show]
    lacking the element to attach the section to, and returns with
    nothing changed for any other index; and [hideSection] and
    [clearOutsideSections] find nothing to hide. *)
Theorem showSection_never_mounts (cfg : FlashlightConfig) (evs : list event)
  (i : Z) :
  let st := run_events cfg evs in
  shownSections st = []
  ∧ Forall (fun s => SectionElement.isShown s = false) (sections st)
  ∧ showSection st i
    = (if decide (0 ≤ i < Z.of_nat (length (sections st)))
       then Throw st else Ok st)
  ∧ hideSection st i = st
  ∧ clearOutsideSections st = st.
Proof.
  intros st. pose proof (run_wf cfg evs) as Hwf. fold st in Hwf.
  pose proof Hwf as (_ & Hn & Ha).
  split_and!; try done.
  - by apply showSection_wf.
  - by apply hideSection_wf.
  - unfold clearOutsideSections. by rewrite Hn.
Qed.

(** *** What a visibility batch leaves alone *)

(** A visibility batch only mounts.  In every state a controller
    reaches, the observer's callback comes to an end, by returning or by
    throwing: its loops do not run on for ever.  Whichever way it ends, it
    has changed nothing but the mount flags of the sections and the set of
    those shown, the window, the scroll offset put aside and, by way of
    [get], the loading flag and the pending call: the layout, the items
    and their order, the content height, the cursor, the options and the
    ordinals are as they were. *)
Theorem intersect_only_mounts (cfg : FlashlightConfig) (evs : list event)
  (scrollTop : float) (entries : list entry) :
  let st := run_events cfg evs in
  let st' := after st (onIntersect st scrollTop entries) in
  onIntersect st scrollTop entries ≠ Spin
  ∧ frame st' = frame st
  ∧ unmount <$> sections st' = unmount <$> sections st
  ∧ SectionElement.getItems <$> sections st'
    = SectionElement.getItems <$> sections st
  ∧ all_items st' = all_items st
  ∧ height st' = height st
  ∧ currentRequestKey st' = currentRequestKey st
  ∧ options st' = options st
  ∧ itemIndexMap st' = itemIndexMap st.
Proof.
  intros st st'. subst st'.
  destruct (onIntersect_cases st scrollTop entries (run_wf cfg evs))
    as [-> | ->]; simpl; split_and!; done.
Qed.

(** *** What a resize does *)


(** *** When a rebuild returns *)

(** The state in which the loop of the rebuild throws holds one section,
    at index 0. *)
Ltac one_pushed :=
  right; eexists; simpl;
  split_and!; [done|exact (f_equal fst (set_mount _ _ _))|done|done].

Lemma splice_cases (rows : list RowData) :
  (0 < NUM_ROWS_PER_SECTION)%nat →
  (rows = []
   ∧ splice_all NUM_ROWS_PER_SECTION
       (section_count NUM_ROWS_PER_SECTION (length rows)) rows = [])
  ∨ ((0 < length rows ≤ NUM_ROWS_PER_SECTION)%nat
     ∧ splice_all NUM_ROWS_PER_SECTION
         (section_count NUM_ROWS_PER_SECTION (length rows)) rows = [rows])
  ∨ ((NUM_ROWS_PER_SECTION < length rows)%nat
     ∧ ∃ x y tl,
         splice_all NUM_ROWS_PER_SECTION
           (section_count NUM_ROWS_PER_SECTION (length rows)) rows
         = x :: y :: tl).
Proof.
  intros HN.
  pose proof (section_count_enough (length rows) HN) as He.
  pose proof (section_count_tight (length rows) HN) as Ht.
  pose proof (section_count_zero (length rows) HN) as Hz.
  destruct (section_count NUM_ROWS_PER_SECTION (length rows)) as [|[|c]].
  - left. split; [|done]. apply nil_length_inv. by apply Hz.
  - right. left.
    assert ((0 < length rows ≤ NUM_ROWS_PER_SECTION)%nat).
    { split; [|lia]. destruct (length rows); [|lia].
      assert (1 = 0)%nat by (by apply Hz). lia. }
    split; [done|]. simpl. rewrite take_ge by lia. done.
  - right. right. split; [|by eexists _, _, _].
    specialize (Ht ltac:(lia)). nia.
Qed.

(** When a rebuild returns.  (With [NUM_ROWS_PER_SECTION > 0].)  The
    rebuild of an option change returns only when it has no section to
    build: with a truthy cursor, when the items it tiles again make at
    least one row and fewer rows than a section takes, which it holds
    back; with a cursor that is not truthy, when they make no row.
    Otherwise it throws: on the last section it does not have, when the
    cursor is truthy and there is no row, the sections and the set of
    those shown being then as they were; or as soon as it has pushed the
    first section it builds, which is then the only one, at index 0, with
    the content height at 0 and no section recorded as shown.  It never
    loops. *)
Theorem rebuild_returns_iff (st : State) :
  (0 < NUM_ROWS_PER_SECTION)%nat →
  let rows := rebuilt_rows st in
  ((∃ st', rebuild st = Ok st')
   ↔ if truthy (currentRequestKey st)
     then (0 < length rows < NUM_ROWS_PER_SECTION)%nat
     else rows = [])
  ∧ (∀ st', rebuild st = Throw st' →
       (truthy (currentRequestKey st) = true ∧ rows = []
        ∧ sections st' = sections st
        ∧ shownSections st' = shownSections st)
       ∨ (∃ s, sections st' = [s] ∧ SectionElement.index s = 0
               ∧ height st' = 0%float ∧ shownSections st' = []))
  ∧ rebuild st ≠ Spin.
Proof.
  intros HN. unfold Flashlight.rebuild, rebuilt_rows, Flashlight.tile.
  destruct (Tile.tile _ _ _) as [rows rem].
  destruct (assign_rows _ _) as [m n]. simpl.
  destruct (splice_cases rows HN)
    as [(Hr & E)|[(Hlen & E)|(Hlen & x & y & tl & E)]]; rewrite E; clear E.
  - subst rows. destruct (truthy (currentRequestKey st)); simpl.
    + split_and!; try done.
      * split; [by intros [? ?]|lia].
      * intros st' [= <-]. left. done.
    + split_and!; try done. split; [done|]. intros _. by eexists.
  - destruct (truthy (currentRequestKey st)); simpl.
    + destruct (length rows =? NUM_ROWS_PER_SECTION)%nat eqn:Ef; simpl.
      * apply Nat.eqb_eq in Ef. split_and!; try done.
        -- split; [by intros [? ?]|lia].
        -- intros st' [= <-]. one_pushed.
      * apply Nat.eqb_neq in Ef. split_and!; try done.
        split; [lia|]. intros _. by eexists.
    + split_and!; try done.
      * split; [by intros [? ?]|]. intros ->. simpl in Hlen. lia.
      * intros st' [= <-]. one_pushed.
  - assert (Hne : rows ≠ []) by (intros ->; simpl in Hlen; lia).
    destruct (truthy (currentRequestKey st)); simpl.
    + destruct (last (y :: tl)) as [ls|] eqn:El.
      2:{ by apply last_None in El. }
      destruct (negb _); simpl.
      * split_and!; try done.
        -- split; [by intros [? ?]|lia].
        -- intros st' [= <-]. one_pushed.
      * split_and!; try done.
        -- split; [by intros [? ?]|lia].
        -- intros st' [= <-]. one_pushed.
    + split_and!; try done.
      * split; [by intros [? ?]|done].
      * intros st' [= <-]. one_pushed.
Qed.

(** *** Starting over *)

Lemma resolve_key (st : State) (r : Response) :
  currentRequestKey (after st (resolve st r)) = nextRequestKey r.
Proof.
  destruct (resolve_outcome st r) as (st3 & secs' & _ & _ & _ & H4 & _ & ->).
  destruct secs'; simpl; [|done].
  destruct (wants_more _ _ _); [|done]. unfold get. by destruct (_ || _).
Qed.

(** Starting over.  [reset] empties the state: no section, no item, no
    ordinal, the cursor and the options of the configuration (what
    [updateOptions] changed is forgotten).  Without a parent for the
    container it then throws, having measured nothing and asked for
    nothing.  With one it records the box measured; when no call is
    awaited it asks for the first page, unless the initial cursor is
    [null]; when one is awaited it asks for nothing, and the response to
    that call, which was made before the reset, is handled in the emptied
    state: the cursor becomes the one it carries and, if its handler
    returns, the controller holds exactly the items of that response. *)
Theorem reset_starts_over (st : State) (w h : float) :
  let first := initialRequestKey (config st) in
  let st1 := after st (reset st w h) in
  (sections st1 = [] ∧ shownSections st1 = [] ∧ all_items st1 = []
   ∧ itemIndexMap st1 = ∅ ∧ nextItemIndex st1 = 0%nat
   ∧ height st1 = 0%float
   ∧ currentRequestKey st1 = first
   ∧ options st1
     = merge {| margin := 3%float; rowAspectRatioThreshold := 5%float |}
             (config_options (config st))
   ∧ config st1 = config st ∧ hosted st1 = hosted st)
  ∧ (hosted st = false →
     reset st w h = Throw st1
     ∧ width st1 = null ∧ containerHeight st1 = null
     ∧ flight st1 = flight st)
  ∧ (hosted st = true →
     reset st w h = Ok st1
     ∧ width st1 = num (w - 16)%float ∧ containerHeight st1 = num h
     ∧ (loading st = false →
        loading st1 = negb (is_null first)
        ∧ outstanding st1
          = outstanding st ++ (if is_null first then [] else [first]))
     ∧ (loading st = true →
        flight st1 = flight st
        ∧ ∀ r k pending,
            (0 < NUM_ROWS_PER_SECTION)%nat → outstanding st = k :: pending →
            currentRequestKey (react st1 (EResolve r)) = nextRequestKey r
            ∧ ∀ st2, resolve (with_outstanding pending st1) r = Ok st2 →
                     all_items st2 = resp_items r)).
Proof.
  simpl. unfold reset, get. destruct (hosted st) eqn:Eh; simpl.
  - split; [|split; [done|]].
    { by destruct (loading st || is_null (initialRequestKey (config st))). }
    intros _. split; [done|]. split; [|split; [|split]].
    + by destruct (loading st || is_null (initialRequestKey (config st))).
    + by destruct (loading st || is_null (initialRequestKey (config st))).
    + intros El. rewrite El. simpl.
      destruct (is_null (initialRequestKey (config st))); simpl; [|done].
      by rewrite app_nil_r.
    + intros El. rewrite El. simpl.
      split; [unfold flight; simpl; by rewrite El|].
      intros r k pending HN Ho. unfold Flashlight.react. simpl. rewrite Ho.
      split; [apply resolve_key|].
      intros st2 H2. by destruct (resolve_items _ _ _ HN H2) as [_ ->].
  - split; [done|]. split; [done|]. done.
Qed.

(** *** Setting the same options again *)

(** Setting options twice.  [updateOptions] with options that are
    numbers equal to themselves ([NaN] is not) records them, keeping the
    stored value of an option that is not given; a second call with the
    same options changes nothing and schedules no rebuild. *)
Theorem updateOptions_again (st : State) (o : FlashlightOptions) :
  (∀ x, opt_margin o = Some x → PrimFloat.eqb x x = true) →
  (∀ x, opt_rowAspectRatioThreshold o = Some x → PrimFloat.eqb x x = true) →
  let st1 := (updateOptions st o).1 in
  margin (options st1) = default (margin (options st)) (opt_margin o)
  ∧ rowAspectRatioThreshold (options st1)
    = default (rowAspectRatioThreshold (options st))
              (opt_rowAspectRatioThreshold o)
  ∧ updateOptions st1 o = (st1, false).
Proof.
  intros Hm Ht. unfold updateOptions. simpl. split; [done|]. split; [done|].
  destruct o as [[m|] [t|]]; simpl in *;
    rewrite ?(Hm _ eq_refl), ?(Ht _ eq_refl); simpl;
    try (destruct (PrimFloat.eqb _ _)); simpl; f_equal; by destruct st.
Qed.

End ControllerFacts.

(** ** Array helpers of the looker *)

Section UtilFacts.

Import LookerUtil.

Lemma rel_index_le (len : nat) (k : Z) : (rel_index len k ≤ len)%nat.
Proof. unfold rel_index. destruct (k <? 0) eqn:E; lia. Qed.

Lemma slice_from {A : Type} (array : list A) (k : Z) :
  slice array k None = drop (rel_index (length array) k) array.
Proof. unfold slice. apply take_ge. rewrite length_drop. lia. Qed.

Lemma slice_to {A : Type} (array : list A) (k : Z) :
  slice array 0 (Some k) = take (rel_index (length array) k) array.
Proof.
  unfold slice.
  assert (E : rel_index (length array) 0 = 0%nat)
    by (unfold rel_index; simpl; lia).
  rewrite E. simpl. by rewrite Nat.sub_0_r.
Qed.

(** [rotate] rotates.  The rotation is capped at the last index and
    returned with the array.  The array returned has the elements of the
    one given, as many; and for a rotation [r] (after the cap) of at least
    minus the length, the element at position [j] is the one that was at
    position [(j + r) mod length].  Of an empty array the rotation
    returned is negative. *)
Theorem rotate_rotates {A : Type} (array : list A) (rotation : Z) :
  let len := Z.of_nat (length array) in
  let r := Z.min rotation (len - 1) in
  (rotate array rotation).2 = r
  ∧ (rotate array rotation).1 ≡ₚ array
  ∧ length (rotate array rotation).1 = length array
  ∧ (- len ≤ rotation →
     ∀ j : nat, Z.of_nat j < len →
       (rotate array rotation).1 !! j
       = array !! Z.to_nat ((Z.of_nat j + r) mod len))
  ∧ (array = [] → rotate array rotation = ([], Z.min rotation (-1))).
Proof.
  intros len r.
  assert (Hnil : array = [] → rotate array rotation = ([], Z.min rotation (-1))).
  { intros ->. unfold rotate, slice. simpl.
    by rewrite take_nil. }
  pose proof (rel_index_le (length array) r) as Hk.
  set (k := rel_index (length array) r) in *.
  assert (Erot : rotate array rotation = (drop k array ++ take k array, r)).
  { unfold rotate. fold len. fold r. by rewrite slice_from, slice_to. }
  split_and!; [..|exact Hnil]; rewrite Erot; simpl.
  - done.
  - by rewrite Permutation_app_comm, take_drop.
  - rewrite length_app, length_drop, length_take. lia.
  - intros Hr j Hj.
    assert (Ek : Z.of_nat k = if r <? 0 then len + r else r).
    { subst k. unfold rel_index. subst r len.
      destruct (Z.min rotation _ <? 0) eqn:E; lia. }
    destruct (decide (j < length array - k)%nat) as [Hlt|Hge].
    + rewrite lookup_app_l by (rewrite length_drop; lia).
      rewrite lookup_drop. f_equal.
      apply Nat2Z.inj. rewrite Z2Nat.id by (apply Z.mod_pos_bound; lia).
      destruct (r <? 0) eqn:E.
      * apply (Z.mod_unique _ _ (-1)); lia.
      * apply (Z.mod_unique _ _ 0); lia.
    + rewrite lookup_app_r by (rewrite length_drop; lia).
      rewrite length_drop, lookup_take_lt by lia. f_equal.
      apply Nat2Z.inj. rewrite Z2Nat.id by (apply Z.mod_pos_bound; lia).
      destruct (r <? 0) eqn:E.
      * apply (Z.mod_unique _ _ 0); lia.
      * apply (Z.mod_unique _ _ 1); lia.
Qed.

Section ArgMinFacts.

Variable T : Type.
Variable lt : T → T → bool.

(** The step of the [reduce]: the newcomer [a] replaces the running
    minimum [r] when it is less. *)
Lemma reduce_less (l : list (T * nat)) (r0 : T * nat) :
  let res := fold_left (fun r a => if lt (fst a) (fst r) then a else r) l r0 in
  ∃ pre post,
    r0 :: l = pre ++ res :: post
    ∧ (∀ a, a ∈ post → lt (fst a) (fst res) = false)
    ∧ ((∀ a b c, a ∈ r0 :: l → b ∈ r0 :: l → c ∈ r0 :: l →
          lt (fst a) (fst b) = true → lt (fst b) (fst c) = true →
          lt (fst a) (fst c) = true) →
       (∀ a b c, a ∈ r0 :: l → b ∈ r0 :: l → c ∈ r0 :: l →
          lt (fst a) (fst c) = true →
          lt (fst a) (fst b) = true ∨ lt (fst b) (fst c) = true) →
       ∀ a, a ∈ pre → lt (fst res) (fst a) = true).
Proof.
  induction l as [|x l IH] using rev_ind; simpl.
  { exists [], []. split_and!; [done|by intros a ?%elem_of_nil|].
    by intros _ _ a ?%elem_of_nil. }
  rewrite fold_left_app. simpl.
  destruct IH as (pre & post & E & Hpost & Hpre).
  set (res := fold_left _ l r0) in *.
  assert (Hres : res ∈ r0 :: l).
  { rewrite E. apply elem_of_app. right. by left. }
  destruct (lt (fst x) (fst res)) eqn:Hx.
  - exists (r0 :: l), []. split_and!; [done|by intros a ?%elem_of_nil|].
    intros Htr Hco a Ha.
    assert (Hin : ∀ b, b ∈ r0 :: l → b ∈ r0 :: l ++ [x]).
    { intros b Hb. rewrite app_comm_cons. apply elem_of_app. by left. }
    assert (Hxin : x ∈ r0 :: l ++ [x]).
    { rewrite app_comm_cons. apply elem_of_app. right. by left. }
    assert (Hpre' : ∀ b, b ∈ pre → lt (fst res) (fst b) = true).
    { apply Hpre.
      - intros a' b c Ha' Hb Hc. apply Htr; by apply Hin.
      - intros a' b c Ha' Hb Hc. apply Hco; by apply Hin. }
    rewrite E in Ha. apply elem_of_app in Ha as [Ha|Ha].
    + apply (Htr x res a); [done|by apply Hin| |done|by apply Hpre'].
      apply Hin. rewrite E. apply elem_of_app. by left.
    + apply elem_of_cons in Ha as [->|Ha]; [done|].
      assert (Hain : a ∈ r0 :: l).
      { rewrite E. apply elem_of_app. right. by right. }
      destruct (Hco x a res Hxin (Hin _ Hain) (Hin _ Hres) Hx) as [H|H];
        [done|].
      rewrite (Hpost a Ha) in H. done.
  - exists pre, (post ++ [x]). split_and!.
    + rewrite app_comm_cons, E. by rewrite <- app_assoc.
    + intros a [Ha|Ha]%elem_of_app; [by apply Hpost|].
      apply list_elem_of_singleton in Ha. by subst a.
    + intros Htr Hco. apply Hpre.
      * intros a' b c Ha' Hb Hc. apply Htr;
          rewrite app_comm_cons; apply elem_of_app; by left.
      * intros a' b c Ha' Hb Hc. apply Hco;
          rewrite app_comm_cons; apply elem_of_app; by left.
Qed.

Lemma argMin_position (array : list T) (i : nat) :
  argMin T lt array = Some i →
  ∃ x pre post,
    array !! i = Some x
    ∧ imap (fun j y => (y, j)) array = pre ++ (x, i) :: post
    ∧ length pre = i
    ∧ (∀ a, a ∈ post → lt (fst a) x = false)
    ∧ ((∀ a b c, a ∈ array → b ∈ array → c ∈ array →
          lt a b = true → lt b c = true → lt a c = true) →
       (∀ a b c, a ∈ array → b ∈ array → c ∈ array →
          lt a c = true → lt a b = true ∨ lt b c = true) →
       ∀ a, a ∈ pre → lt x (fst a) = true).
Proof.
  unfold argMin.
  assert (Hmem : ∀ a, a ∈ imap (fun j y => (y, j)) array → fst a ∈ array).
  { intros [y j] (j' & y' & [= -> ->] & Hl)%elem_of_lookup_imap.
    by eapply list_elem_of_lookup_2. }
  destruct (imap (fun j y => (y, j)) array) as [|first rest] eqn:El; [done|].
  intros [= Hi].
  destruct (reduce_less rest first) as (pre & post & E & Hpost & Hpre).
  set (res := fold_left _ rest first) in *.
  assert (Hat : imap (fun j y => (y, j)) array !! length pre = Some res).
  { rewrite El, E. by apply list_lookup_middle. }
  rewrite list_lookup_imap in Hat.
  destruct (array !! length pre) as [x|] eqn:Hx; [|done].
  simpl in Hat. injection Hat as Hres.
  assert (Ei : length pre = i) by (by rewrite <- Hi, <- Hres).
  exists x, pre, post. rewrite <- Hres in *. simpl in *.
  split_and!; try done.
  - by rewrite <- Ei.
  - by rewrite <- Ei.
  - intros Htr Hco. apply Hpre.
    + intros a b c Ha Hb Hc. apply Htr; by apply Hmem.
    + intros a b c Ha Hb Hc. apply Hco; by apply Hmem.
Qed.

(** [argMin] finds the first minimum.  It throws exactly on the empty
    array.  The index it returns is one of the array, and no later element
    is less than the one there.  When [<] is transitive on the elements
    of the array and an element less than another is less than any third
    or has the third less than the other (as numbers are, [NaN] apart),
    the element there is also less than every earlier one: it is the
    first of the least. *)
Theorem argMin_first_least (array : list T) :
  (argMin T lt array = None ↔ array = [])
  ∧ ∀ i, argMin T lt array = Some i →
      ∃ x, array !! i = Some x
           ∧ (∀ j y, array !! j = Some y → (i < j)%nat → lt y x = false)
           ∧ ((∀ a b c, a ∈ array → b ∈ array → c ∈ array →
                 lt a b = true → lt b c = true → lt a c = true) →
              (∀ a b c, a ∈ array → b ∈ array → c ∈ array →
                 lt a c = true → lt a b = true ∨ lt b c = true) →
              ∀ j y, array !! j = Some y → (j < i)%nat → lt x y = true).
Proof.
  split.
  - unfold argMin. destruct array as [|x array]; simpl; split; done.
  - intros i E.
    destruct (argMin_position array i E)
      as (x & pre & post & Hx & Hl & Hlen & Hpost & Hpre).
    exists x. split; [done|].
    assert (Hat : ∀ j y, array !! j = Some y →
              (pre ++ (x, i) :: post) !! j = Some (y, j)).
    { intros j y Hj. rewrite <- Hl, list_lookup_imap, Hj. done. }
    split.
    + intros j y Hj Hlt. specialize (Hat j y Hj).
      rewrite lookup_app_r in Hat by lia.
      destruct (j - length pre)%nat as [|n] eqn:En; [lia|]. simpl in Hat.
      apply (Hpost (y, j)). by eapply list_elem_of_lookup_2.
    + intros Htr Hco j y Hj Hlt. specialize (Hat j y Hj).
      rewrite lookup_app_l in Hat by lia.
      apply (Hpre Htr Hco (y, j)). by eapply list_elem_of_lookup_2.
Qed.

End ArgMinFacts.

End UtilFacts.

(** ** Scenarios *)

(** [set_idempotent] at [laid_out]: a second [set(0, 100)] changes
    nothing. *)
Lemma set_idempotent_witness :
  strict_eq (SectionElement.top laid_out) (num 0) = true
  ∧ strict_eq (SectionElement.width laid_out) (num 100) = true
  ∧ SectionElement.set Constants.MARGIN laid_out 0 (num 100) = laid_out.
Proof.
  split; [reflexivity|]. split; [reflexivity|].
  apply (proj1 (set_idempotent Constants.MARGIN laid_out 0 (num 100))); reflexivity.
Defined.

(** [set_top_only] at [laid_out]: [set(50, 100)] moves it to 50 and keeps
    its rows. *)
Lemma set_top_only_witness :
  SectionElement.rows (SectionElement.set Constants.MARGIN laid_out 50 (num 100))
  = SectionElement.rows laid_out
  ∧ SectionElement.top (SectionElement.set Constants.MARGIN laid_out 50 (num 100)) = num 50.
Proof.
  pose proof (set_top_only Constants.MARGIN laid_out 50 (num 100) eq_refl eq_refl) as H.
  split; [apply H|apply H].
Defined.


(** C4 at a response without [nextRequestKey], which carries no item, so
    that the handler builds no section and runs to its end.  It stores
    [undefined] as the cursor and lowers the flag; its last test, the
    content being lower than the container, calls [get()].  [undefined]
    is not [null]: that [get()] raises the flag and calls the pager once
    more, with [undefined]. *)
Lemma get_after_keyless_response :
  let before :=
    Flashlight.with_outstanding [] (scenario defaults attached_only) in
  let response := {| resp_items := []; nextRequestKey := KUndefined |} in
  ∃ st,
    Flashlight.settle Constants.MARGIN Constants.NUM_ROWS_PER_SECTION before
      response = Flashlight.Ok (st, 0%nat)
    ∧ Flashlight.sections st = []
    ∧ Flashlight.currentRequestKey st = KUndefined
    ∧ Flashlight.loading st = false
    ∧ Flashlight.outstanding st = []
    ∧ Flashlight.loading (Flashlight.get st) = true
    ∧ Flashlight.outstanding (Flashlight.get st) = [KUndefined]
    ∧ Flashlight.resolve Constants.MARGIN Constants.NUM_ROWS_PER_SECTION
        before response = Flashlight.Ok (Flashlight.get st)
    ∧ scenario defaults keyless_empty_page = Flashlight.get st.
Proof. eexists. split_and!; vm_compute; reflexivity. Qed.

(** With [null] in the response the run ends with no call pending. *)
Lemma no_get_after_null_response :
  Flashlight.currentRequestKey (scenario defaults null_empty_page) = KNull
  ∧ Flashlight.loading (scenario defaults null_empty_page) = false
  ∧ Flashlight.outstanding (scenario defaults null_empty_page) = [].
Proof. split_and!; vm_compute; reflexivity. Qed.

(** C5 at the rebuild after a change of the threshold.  The first page
    gave the items "a" to "e" the ordinals 0 to 4.  The rebuild returns;
    it has tiled "a" to "d" into a row again and given them the ordinals
    5 to 8, while "e", which it holds back, keeps 4: the ordinal of "a" is
    revised, and the ordinals are no longer in the order of the items. *)
Lemma ordinal_revised_by_rebuild :
  let st := scenario defaults threshold_changed in
  let st' :=
    Flashlight.react Constants.MARGIN Constants.NUM_ROWS_PER_SECTION st
      Flashlight.ERebuild in
  (λ i, Flashlight.itemIndexMap st !! i) <$> ["a"; "b"; "c"; "d"; "e"]
  = [Some 0; Some 1; Some 2; Some 3; Some 4]%nat
  ∧ Flashlight.rebuild Constants.MARGIN Constants.NUM_ROWS_PER_SECTION st
    = Flashlight.Ok st'
  ∧ (λ i, Flashlight.itemIndexMap st' !! i) <$> ["a"; "b"; "c"; "d"; "e"]
    = [Some 5; Some 6; Some 7; Some 8; Some 4]%nat.
Proof. split_and!; vm_compute; reflexivity. Qed.

(** C6 at a rebuild with an item held back.  Before the rebuild the
    controller holds the six items of the first page, "f" as the item
    remainder; after it, it holds five: "f" is gone. *)
Lemma rebuild_drops_held_items :
  map id (all_items (scenario defaults threshold_changed))
  = ["a"; "b"; "c"; "d"; "e"; "f"]
  ∧ Flashlight.rebuild Constants.MARGIN Constants.NUM_ROWS_PER_SECTION
      (scenario defaults threshold_changed)
    = Flashlight.Ok
        (Flashlight.react Constants.MARGIN Constants.NUM_ROWS_PER_SECTION
           (scenario defaults threshold_changed) Flashlight.ERebuild)
  ∧ map id (all_items
              (Flashlight.react Constants.MARGIN Constants.NUM_ROWS_PER_SECTION
                 (scenario defaults threshold_changed) Flashlight.ERebuild))
    = ["a"; "b"; "c"; "d"; "e"].
Proof. split_and!; vm_compute; reflexivity. Qed.


(** C8 at a controller configured with a margin of 10.  Its section of
    one row of two square items, 100 wide, has items 48.5 high, which is
    [(100 - 1 * 3) / 2]; with the configured margin the formula gives
    [(100 - 1 * 10) / 2 = 45]. *)
Lemma margin_option_not_applied :
  margin (Flashlight.options (scenario wide_margin two_squares)) = 10%float
  ∧ map item_heights (Flashlight.sections (scenario wide_margin two_squares))
    = [[[Some 48.5%float; Some 48.5%float]]]
  ∧ ((100 - (of_nat 2 - 1 + 0) * 10) / 2)%float = 45%float
  ∧ ((100 - (of_nat 2 - 1 + 0) * Constants.MARGIN) / 2)%float = 48.5%float.
Proof. split_and!; vm_compute; reflexivity. Qed.

(** [rebuild_items_kept] at the rebuild after the change of the
    threshold: the items held afterwards are those of the sections and of
    the rows held back before. *)
Lemma rebuild_items_kept_witness :
  all_items
    (Flashlight.react Constants.MARGIN Constants.NUM_ROWS_PER_SECTION
       (scenario defaults threshold_changed) Flashlight.ERebuild)
  = Flashlight.rebuild_items (scenario defaults threshold_changed).
Proof.
  apply (rebuild_items_kept Constants.MARGIN Constants.NUM_ROWS_PER_SECTION).
  - unfold Constants.NUM_ROWS_PER_SECTION. lia.
  - vm_compute. reflexivity.
Defined.


(** [rebuild_returns_iff] at the rebuild after the change of the
    threshold: the cursor is truthy and the items make one row, so that
    the rebuild returns. *)
Lemma rebuild_returns_iff_witness :
  ∃ st',
    Flashlight.rebuild Constants.MARGIN Constants.NUM_ROWS_PER_SECTION
      (scenario defaults threshold_changed) = Flashlight.Ok st'.
Proof.
  assert (HN : (0 < Constants.NUM_ROWS_PER_SECTION)%nat)
    by (unfold Constants.NUM_ROWS_PER_SECTION; lia).
  apply (proj2 (proj1 (rebuild_returns_iff Constants.MARGIN
                         Constants.NUM_ROWS_PER_SECTION
                         (scenario defaults threshold_changed) HN))).
  vm_compute. lia.
Defined.

(** [updateOptions_again] at a change of the threshold to 7 after the
    first page. *)
Lemma updateOptions_again_witness :
  Flashlight.updateOptions
    (Flashlight.updateOptions (scenario defaults first_page) threshold_seven).1
    threshold_seven
  = ((Flashlight.updateOptions (scenario defaults first_page)
        threshold_seven).1, false).
Proof.
  apply (updateOptions_again (scenario defaults first_page) threshold_seven).
  - intros x H. discriminate H.
  - intros x H. injection H as <-. reflexivity.
Defined.

(** [argMin_first_least] on integers: of 3, 1, 2, 1 the first 1, at
    index 1, is found. *)
Lemma argMin_first_least_witness :
  LookerUtil.argMin Z Z.ltb [3; 1; 2; 1] = Some 1%nat
  ∧ ∃ x, [3; 1; 2; 1] !! 1%nat = Some x
         ∧ (∀ j y, [3; 1; 2; 1] !! j = Some y → (j < 1)%nat → Z.ltb x y = true)
         ∧ (∀ j y, [3; 1; 2; 1] !! j = Some y → (1 < j)%nat → Z.ltb y x = false).
Proof.
  split; [reflexivity|].
  destruct (proj2 (argMin_first_least Z Z.ltb [3; 1; 2; 1]) 1%nat eq_refl)
    as (x & Hx & Hlater & Hearlier).
  exists x. split; [exact Hx|]. split; [|exact Hlater].
  apply Hearlier.
  - intros a b c _ _ _ H1 H2. lia.
  - intros a b c _ _ _ H1. lia.
Defined.
